(** * pickaxe_generic: the entity store and the metadata pipeline

    A shallow embedding of [pickaxe_generic/network.py] (the entity store
    [ChemNetworkBin]) and [pickaxe_generic/metadata.py] (metadata states,
    compositors and analysis steps), together with the properties stated for
    them.
    The object libraries of [pickaxe_generic/containers.py] and the metadata
    updates of [metadata.py] are embedded as well, with properties of their
    own.

    Modelling conventions.
    - A Python [dict] is a [gmap], a [frozenset] a [gset], a [list] or
      [tuple] a [list].  No property below depends on dictionary iteration
      order.
    - A method of the store is a computation in a state-and-exception monad:
      it takes the store and returns an outcome (a value or a raised
      exception) together with the store as mutated so far.
    - Handles ([_MolIndex], [_OpIndex], [_RxnIndex]) are natural numbers; an
      index annotated plain [int] is a [Z] and follows Python's rule for
      negative list indices.
    - The bodies of the methods and functions are modelled as written.  A
      name that the module does not define raises [NameError] where it is
      evaluated: so do the private names of the query views inside the
      store's class.  The construction of objects and the loading of the
      modules are outside the functions embedded here.  Molecules,
      operators, filters and calculators are reached through the interface
      the code calls, and their methods are taken to be pure and total. *)

From Stdlib Require Import ZArith Lia.
From stdpp Require Import base option list gmap sets fin_maps strings.

Set Default Proof Using "Type*".

(** ** Exceptions and the state-and-exception monad *)

Inductive PyError : Type :=
  | IndexError
  | KeyError
  | ValueError
  | TypeError
  | NameError.

#[global] Instance PyError_eq_dec : EqDecision PyError.
Proof. solve_decision. Defined.

Inductive outcome (A : Type) : Type :=
  | Ret (a : A)
  | Raise (e : PyError).
Arguments Ret {A} a.
Arguments Raise {A} e.

#[global] Instance outcome_mret : MRet outcome := λ A, Ret.
#[global] Instance outcome_mbind : MBind outcome := λ A B k m,
  match m with
  | Ret a => k a
  | Raise e => Raise e
  end.

Definition St (S A : Type) : Type := S → outcome A * S.

Definition st_ret {S A} (a : A) : St S A := λ s, (Ret a, s).
Definition st_raise {S A} (e : PyError) : St S A := λ s, (Raise e, s).
Definition st_bind {S A B} (m : St S A) (k : A → St S B) : St S B :=
  λ s, match m s with
       | (Ret a, s') => k a s'
       | (Raise e, s') => (Raise e, s')
       end.
Definition st_get {S} : St S S := λ s, (Ret s, s).
Definition st_gets {S A} (f : S → A) : St S A := λ s, (Ret (f s), s).
Definition st_put {S} (s' : S) : St S unit := λ _, (Ret tt, s').
Definition st_modify {S} (f : S → S) : St S unit := λ s, (Ret tt, f s).

(** [lift o e] is the value of a lookup [o], raising [e] when it is absent. *)
Definition lift {S A} (o : option A) (e : PyError) : St S A :=
  match o with
  | Some a => st_ret a
  | None => st_raise e
  end.

(** An exception object that is built as an expression statement and never
    raised: evaluating it has no effect. *)
Definition discarded {S} (e : PyError) : St S unit := st_ret tt.

(** A name that the module does not define: evaluating it raises
    [NameError]. *)
Definition undefined_name {S A} : St S A := st_raise NameError.

#[global] Instance St_mret {S} : MRet (St S) := λ A, st_ret.
#[global] Instance St_mbind {S} : MBind (St S) := λ A B k m, st_bind m k.

(** [for x in l: body x] *)
Fixpoint for_ {S A} (l : list A) (body : A → St S unit) : St S unit :=
  match l with
  | [] => st_ret tt
  | x :: l' => body x;; for_ l' body
  end.

(** [enumerate(l, start)] and [enumerate(l)] *)
Fixpoint enumerate_from {A} (start : nat) (l : list A) : list (nat * A) :=
  match l with
  | [] => []
  | x :: l' => (start, x) :: enumerate_from (S start) l'
  end.
Definition enumerate {A} (l : list A) : list (nat * A) := enumerate_from 0 l.

(** [max(l)] on a sequence of handles: [ValueError] on the empty sequence. *)
Definition py_max {S} (l : list nat) : St S nat :=
  match l with
  | [] => st_raise ValueError
  | x :: l' => st_ret (foldl Nat.max x l')
  end.

(** Position designated by a Python list index [i] in a list of length [n]:
    negative indices count from the end. *)
Definition py_index (n : nat) (i : Z) : option nat :=
  if decide (0 ≤ i < Z.of_nat n)%Z then Some (Z.to_nat i)
  else if decide (- Z.of_nat n ≤ i < 0)%Z then Some (Z.to_nat (i + Z.of_nat n))
  else None.

(** ** The capability interfaces of molecules and operators
    ([pickaxe_generic.datatypes], consumed through [uid], [len] and [compat]) *)

Class DataUnit (Identifier A : Type) := uid : A → Identifier.

Class OpDat (M O : Type) := {
  op_len : O → nat;                   (* [len(op)]: the number of argument slots *)
  compat : O → M → nat → bool         (* [op.compat(mol, argnum)] *)
}.

(** ** [network.py]: the entity store *)

Module Network.

(** [Reaction]: a frozen dataclass, compared and hashed by its three fields. *)
Record Reaction : Type := mkReaction {
  operator : nat;
  reactants : list nat;
  products : list nat
}.

#[global] Instance Reaction_eq_dec : EqDecision Reaction.
Proof. solve_decision. Defined.

#[global] Instance Reaction_countable : Countable Reaction.
Proof.
  refine (inj_countable'
    (λ r, (operator r, reactants r, products r))
    (λ t, mkReaction t.1.1 t.1.2 t.2) _).
  by intros [].
Defined.

Section Store.
Context {Identifier : Type} `{Countable Identifier}.
Context {Key : Type} `{Countable Key}.
Context {Val : Type}.
Context {MolDatBase OpDatBase : Type}.
Context `{!DataUnit Identifier MolDatBase, !DataUnit Identifier OpDatBase}.
Context `{!OpDat MolDatBase OpDatBase}.

(** A metadata value: Python's [None] or an object. *)
Inductive PyVal : Type :=
  | PyNone
  | PyObj (v : Val).

(** A per-entity metadata dictionary. *)
Local Abbreviation Meta := (gmap Key PyVal).

Record ChemNetworkBin : Type := mkNet {
  _mol_list : list MolDatBase;
  _op_list : list OpDatBase;
  _rxn_list : list Reaction;
  _mol_map : gmap Identifier nat;
  _op_map : gmap Identifier nat;
  _rxn_map : gmap Reaction nat;
  _mol_meta : list Meta;
  _op_meta : list Meta;
  _rxn_meta : list Meta;
  _mol_producers : gmap nat (gset nat);
  _mol_consumers : gmap nat (gset nat);
  _compat_table : list (list (list nat))
}.

(** [ChemNetworkBin.__init__] *)
Definition init : ChemNetworkBin :=
  mkNet [] [] [] ∅ ∅ ∅ [] [] [] ∅ ∅ [].

(** Field updates. *)
Definition set_mol_list f (s : ChemNetworkBin) : ChemNetworkBin :=
  mkNet (f (_mol_list s)) (_op_list s) (_rxn_list s) (_mol_map s) (_op_map s)
    (_rxn_map s) (_mol_meta s) (_op_meta s) (_rxn_meta s) (_mol_producers s)
    (_mol_consumers s) (_compat_table s).
Definition set_op_list f (s : ChemNetworkBin) : ChemNetworkBin :=
  mkNet (_mol_list s) (f (_op_list s)) (_rxn_list s) (_mol_map s) (_op_map s)
    (_rxn_map s) (_mol_meta s) (_op_meta s) (_rxn_meta s) (_mol_producers s)
    (_mol_consumers s) (_compat_table s).
Definition set_rxn_list f (s : ChemNetworkBin) : ChemNetworkBin :=
  mkNet (_mol_list s) (_op_list s) (f (_rxn_list s)) (_mol_map s) (_op_map s)
    (_rxn_map s) (_mol_meta s) (_op_meta s) (_rxn_meta s) (_mol_producers s)
    (_mol_consumers s) (_compat_table s).
Definition set_mol_map f (s : ChemNetworkBin) : ChemNetworkBin :=
  mkNet (_mol_list s) (_op_list s) (_rxn_list s) (f (_mol_map s)) (_op_map s)
    (_rxn_map s) (_mol_meta s) (_op_meta s) (_rxn_meta s) (_mol_producers s)
    (_mol_consumers s) (_compat_table s).
Definition set_op_map f (s : ChemNetworkBin) : ChemNetworkBin :=
  mkNet (_mol_list s) (_op_list s) (_rxn_list s) (_mol_map s) (f (_op_map s))
    (_rxn_map s) (_mol_meta s) (_op_meta s) (_rxn_meta s) (_mol_producers s)
    (_mol_consumers s) (_compat_table s).
Definition set_rxn_map f (s : ChemNetworkBin) : ChemNetworkBin :=
  mkNet (_mol_list s) (_op_list s) (_rxn_list s) (_mol_map s) (_op_map s)
    (f (_rxn_map s)) (_mol_meta s) (_op_meta s) (_rxn_meta s) (_mol_producers s)
    (_mol_consumers s) (_compat_table s).
Definition set_mol_meta f (s : ChemNetworkBin) : ChemNetworkBin :=
  mkNet (_mol_list s) (_op_list s) (_rxn_list s) (_mol_map s) (_op_map s)
    (_rxn_map s) (f (_mol_meta s)) (_op_meta s) (_rxn_meta s) (_mol_producers s)
    (_mol_consumers s) (_compat_table s).
Definition set_op_meta f (s : ChemNetworkBin) : ChemNetworkBin :=
  mkNet (_mol_list s) (_op_list s) (_rxn_list s) (_mol_map s) (_op_map s)
    (_rxn_map s) (_mol_meta s) (f (_op_meta s)) (_rxn_meta s) (_mol_producers s)
    (_mol_consumers s) (_compat_table s).
Definition set_rxn_meta f (s : ChemNetworkBin) : ChemNetworkBin :=
  mkNet (_mol_list s) (_op_list s) (_rxn_list s) (_mol_map s) (_op_map s)
    (_rxn_map s) (_mol_meta s) (_op_meta s) (f (_rxn_meta s)) (_mol_producers s)
    (_mol_consumers s) (_compat_table s).
Definition set_compat_table f (s : ChemNetworkBin) : ChemNetworkBin :=
  mkNet (_mol_list s) (_op_list s) (_rxn_list s) (_mol_map s) (_op_map s)
    (_rxn_map s) (_mol_meta s) (_op_meta s) (_rxn_meta s) (_mol_producers s)
    (_mol_consumers s) (f (_compat_table s)).

(** [l.append(x)] *)
Definition append {A} (x : A) (l : list A) : list A := l ++ [x].

(** The metadata dictionary stored for a new entity: [{}] when [meta] is
    [None], a copy [dict(meta)] otherwise. *)
Definition new_meta (meta : option Meta) : Meta :=
  match meta with
  | None => ∅
  | Some m => m
  end.

(** *** Metadata accessors *)

(** [table[index][key]] when [value is None], [table[index][key] = value]
    otherwise; the body shared by [mol_meta], [op_meta] and [rxn_meta],
    over the list of dictionaries it is applied to. *)
Definition meta_access (table : list Meta) (index : Z) (key : Key)
    (value : PyVal) : outcome PyVal * list Meta :=
  match value with
  | PyNone =>
      match py_index (length table) index ≫= (table !!.) with
      | None => (Raise IndexError, table)
      | Some d =>
          match d !! key with
          | None => (Raise KeyError, table)
          | Some v => (Ret v, table)
          end
      end
  | PyObj _ =>
      match py_index (length table) index with
      | None => (Raise IndexError, table)
      | Some i =>
          match table !! i with
          | None => (Raise IndexError, table)
          | Some d => (Ret PyNone, <[i := <[key := value]> d]> table)
          end
      end
  end.

Definition mol_meta (index : Z) (key : Key) (value : PyVal)
    : St ChemNetworkBin PyVal :=
  λ s, let '(r, t) := meta_access (_mol_meta s) index key value in
       (r, set_mol_meta (λ _, t) s).

Definition op_meta (index : Z) (key : Key) (value : PyVal)
    : St ChemNetworkBin PyVal :=
  λ s, let '(r, t) := meta_access (_op_meta s) index key value in
       (r, set_op_meta (λ _, t) s).

Definition rxn_meta (index : Z) (key : Key) (value : PyVal)
    : St ChemNetworkBin PyVal :=
  λ s, let '(r, t) := meta_access (_rxn_meta s) index key value in
       (r, set_rxn_meta (λ _, t) s).

(** [compat_table(index)] *)
Definition compat_table (index : Z) : St ChemNetworkBin (list (list nat)) :=
  s ← st_get;
  lift (py_index (length (_compat_table s)) index ≫= (_compat_table s !!.))
       IndexError.

(** *** The producer/consumer reverse index *)

(** The argument of [consumers] and [producers]: a handle, a molecule or an
    identifier. *)
Inductive MolRef : Type :=
  | ByIndex (i : nat)
  | ByMol (m : MolDatBase)
  | ByUid (u : Identifier).

Definition reverse_lookup (index : gmap nat (gset nat)) (mol : MolRef)
    : St ChemNetworkBin (gset nat) :=
  match mol with
  | ByIndex i => lift (index !! i) KeyError
  | ByMol m =>
      s ← st_get;
      i ← lift (_mol_map s !! uid m) KeyError;
      lift (index !! i) KeyError
  | ByUid u =>
      s ← st_get;
      i ← lift (_mol_map s !! u) KeyError;
      lift (index !! i) KeyError
  end.

Definition consumers (mol : MolRef) : St ChemNetworkBin (gset nat) :=
  s ← st_get; reverse_lookup (_mol_consumers s) mol.

Definition producers (mol : MolRef) : St ChemNetworkBin (gset nat) :=
  s ← st_get; reverse_lookup (_mol_producers s) mol.

(** *** Query views *)

(** [__ValueQueryData]: a view of an entity list and its identity map. *)
Record ValueQueryData (A : Type) : Type := mkValueQueryData {
  _list : list A;
  _map : gmap Identifier nat
}.
Arguments mkValueQueryData {A} _ _.
Arguments _list {A} _.
Arguments _map {A} _.

(** [__ValueQueryAssoc]: the same for reactions, which are their own
    identity. *)
Record ValueQueryAssoc : Type := mkValueQueryAssoc {
  _assoc_list : list Reaction;
  _assoc_map : gmap Reaction nat
}.

(** The properties [mols], [ops] and [rxns].  Each builds its view on first
    use, [self._op_query = __ValueQueryData(self._op_list, self._op_map)],
    and returns the stored view afterwards.  Inside [class ChemNetworkBin]
    the names [__ValueQueryData] and [__ValueQueryAssoc] are the private
    names [_ChemNetworkBin__ValueQueryData] and
    [_ChemNetworkBin__ValueQueryAssoc], which the module does not define:
    the first use raises [NameError] before anything is stored, so the
    stored view is [None] on every store and every use is a first use. *)
Definition mols : St ChemNetworkBin (ValueQueryData MolDatBase) :=
  __ValueQueryData ← undefined_name;
  s ← st_get;
  st_ret (__ValueQueryData (_mol_list s) (_mol_map s)).
Definition ops : St ChemNetworkBin (ValueQueryData OpDatBase) :=
  __ValueQueryData ← undefined_name;
  s ← st_get;
  st_ret (__ValueQueryData (_op_list s) (_op_map s)).
Definition rxns : St ChemNetworkBin ValueQueryAssoc :=
  __ValueQueryAssoc ← undefined_name;
  s ← st_get;
  st_ret (__ValueQueryAssoc (_rxn_list s) (_rxn_map s)).

(** [l[i]] on a list, for an integer [i]. *)
Definition list_getitem {A} (l : list A) (i : Z) : outcome A :=
  match py_index (length l) i ≫= (l !!.) with
  | Some x => Ret x
  | None => Raise IndexError
  end.

(** [__ValueQueryData.i], [.uid], [.__len__], and [.__contains__] on an
    entity or an identifier. *)
Definition Data_i {A} (v : ValueQueryData A) (u : Identifier) : outcome nat :=
  match _map v !! u with
  | Some i => Ret i
  | None => Raise KeyError
  end.
Definition Data_uid {A} `{!DataUnit Identifier A} (v : ValueQueryData A) (i : Z)
    : outcome Identifier :=
  x ← list_getitem (_list v) i; Ret (uid x).
Definition Data_len {A} (v : ValueQueryData A) : nat := length (_list v).
Definition Data_contains {A} `{!DataUnit Identifier A} (v : ValueQueryData A)
    (item : A + Identifier) : bool :=
  let item := match item with inl x => uid x | inr u => u end in
  bool_decide (item ∈ dom (_map v)).

(** [__ValueQueryAssoc.i], [.__len__], and [.__getitem__] for an integer
    item (for a slice the same expression gives a sub-list). *)
Definition Assoc_i (v : ValueQueryAssoc) (item : Reaction) : outcome nat :=
  match _assoc_map v !! item with
  | Some i => Ret i
  | None => Raise KeyError
  end.
Definition Assoc_len (v : ValueQueryAssoc) : nat := length (_assoc_list v).
Definition Assoc_getitem (v : ValueQueryAssoc) (item : Z) : outcome Reaction :=
  list_getitem (_assoc_list v) item.

(** *** Insertion *)

(** [self._compat_table[i][argnum].append(mol_index)] *)
Definition compat_append (i argnum mol_index : nat) : St ChemNetworkBin unit :=
  s ← st_get;
  row ← lift (_compat_table s !! i) IndexError;
  l ← lift (row !! argnum) IndexError;
  st_put (set_compat_table (λ t, <[i := <[argnum := append mol_index l]> row]> t) s).

(** The molecule handles of [mols] (numbered from [start]) that operator
    [op] accepts in slot [argnum]:
    [[i for i, mol in enumerate(mols, start) if op.compat(mol, argnum)]] *)
Definition compat_handles (op : OpDatBase) (argnum start : nat)
    (mols : list MolDatBase) : list nat :=
  enumerate_from start mols ≫= (λ '(mol_index, mol),
    if compat op mol argnum then [mol_index] else []).

Definition add_mol (mol : MolDatBase) (meta : option Meta)
    : St ChemNetworkBin nat :=
  let mol_uid : Identifier := uid mol in
  s ← st_get;
  match _mol_map s !! mol_uid with
  | Some i => st_ret i
  | None =>
      let mol_index := length (_mol_list s) in
      st_modify (set_mol_list (append mol));;
      st_modify (set_mol_map <[mol_uid := mol_index]>);;
      st_modify (set_mol_meta (append (new_meta meta)));;
      view ← ops;
      for_ (enumerate (_list view)) (λ '(i, op),
        for_ (seq 0 (op_len op)) (λ argnum,
          if compat op mol argnum
          then compat_append i argnum mol_index
          else st_ret tt));;
      st_ret mol_index
  end.

Definition add_op (op : OpDatBase) (meta : option Meta)
    : St ChemNetworkBin nat :=
  let op_uid : Identifier := uid op in
  s ← st_get;
  match _op_map s !! op_uid with
  | Some i => st_ret i
  | None =>
      let op_index := length (_op_list s) in
      st_modify (set_op_list (append op));;
      st_modify (set_op_map <[op_uid := op_index]>);;
      st_modify (set_op_meta (append (new_meta meta)));;
      mols ← st_gets _mol_list;
      st_modify (set_compat_table (append
        ((λ argnum, compat_handles op argnum 0 mols) <$> seq 0 (op_len op))));;
      st_ret op_index
  end.

Definition add_rxn (op : nat) (reactants products : list nat)
    (meta : option Meta) : St ChemNetworkBin nat :=
  let rxn := mkReaction op reactants products in
  s ← st_get;
  match _rxn_map s !! rxn with
  | Some i => st_ret i
  | None =>
      max_r ← py_max reactants;
      max_p ← py_max products;
      (if decide (length (_mol_list s) ≤ Nat.max max_r max_p)
       then discarded IndexError else st_ret tt);;
      (if decide (length (_op_list s) ≤ op)
       then discarded IndexError else st_ret tt);;
      let rxn_index := length (_rxn_list s) in
      st_modify (set_rxn_list (append rxn));;
      st_modify (set_rxn_map <[rxn := rxn_index]>);;
      st_modify (set_op_meta (append (new_meta meta)));;
      st_ret rxn_index
  end.

(** *** Specification of the compatibility table *)

(** The table that testing every molecule against every slot of every
    operator gives. *)
Definition table_of (ops : list OpDatBase) (mols : list MolDatBase)
    : list (list (list nat)) :=
  (λ op, (λ argnum, compat_handles op argnum 0 mols) <$> seq 0 (op_len op)) <$> ops.

(** The store after a new molecule has been registered: the molecule, its
    identity and its metadata are appended, and the compatibility table is
    as it was. *)
Definition mol_registered (s : ChemNetworkBin) (mol : MolDatBase)
    (meta : option Meta) : ChemNetworkBin :=
  mkNet (_mol_list s ++ [mol]) (_op_list s) (_rxn_list s)
    (<[uid mol := length (_mol_list s)]> (_mol_map s)) (_op_map s) (_rxn_map s)
    (_mol_meta s ++ [new_meta meta]) (_op_meta s) (_rxn_meta s)
    (_mol_producers s) (_mol_consumers s) (_compat_table s).

(** The row an operator gets when it is added while [mols] are
    registered. *)
Definition row_of (op : OpDatBase) (mols : list MolDatBase) : list (list nat) :=
  (λ argnum, compat_handles op argnum 0 mols) <$> seq 0 (op_len op).

(** Every operator's row is the row of the molecules that were registered
    when the operator was added, a prefix of the molecules registered
    now. *)
Definition table_frozen (s : ChemNetworkBin) : Prop :=
  Forall2 (λ op row, ∃ n, n ≤ length (_mol_list s) ∧
                          row = row_of op (take n (_mol_list s)))
    (_op_list s) (_compat_table s).

(** *** Specification of the metadata accessors *)

(** What is asked of an accessor [f] over the metadata list [meta_of]:
    with [None] it reads and leaves the store as it is; with an object it
    assigns; and it never brings a [None] value into a dictionary. *)
Definition accessor_contract (meta_of : ChemNetworkBin → list Meta)
    (f : Z → Key → PyVal → St ChemNetworkBin PyVal) : Prop :=
  ∀ (s : ChemNetworkBin) (index : Z) (key : Key),
    (∃ r, f index key PyNone s = (r, s) ∧
       (py_index (length (meta_of s)) index = None → r = Raise IndexError) ∧
       ∀ i d, py_index (length (meta_of s)) index = Some i →
              meta_of s !! i = Some d →
              r = match d !! key with
                  | Some v => Ret v
                  | None => Raise KeyError
                  end) ∧
    (∀ v, ∃ r s', f index key (PyObj v) s = (r, s') ∧
       (py_index (length (meta_of s)) index = None →
          r = Raise IndexError ∧ s' = s) ∧
       ∀ i d, py_index (length (meta_of s)) index = Some i →
              meta_of s !! i = Some d →
              r = Ret PyNone ∧
              meta_of s' = <[i := <[key := PyObj v]> d]> (meta_of s)) ∧
    (∀ value i d k,
       meta_of (f index key value s).2 !! i = Some d → d !! k = Some PyNone →
       ∃ d0, meta_of s !! i = Some d0 ∧ d0 !! k = Some PyNone).

(** *** Specification of reaction insertion *)

(** The store after a novel reaction has been appended. *)
Definition rxn_appended (s : ChemNetworkBin) (op : nat) (rs ps : list nat) (meta : option Meta)
    : ChemNetworkBin :=
  mkNet (_mol_list s) (_op_list s) (_rxn_list s ++ [mkReaction op rs ps])
    (_mol_map s) (_op_map s)
    (<[mkReaction op rs ps := length (_rxn_list s)]> (_rxn_map s))
    (_mol_meta s) (_op_meta s ++ [new_meta meta]) (_rxn_meta s)
    (_mol_producers s) (_mol_consumers s) (_compat_table s).

(** The producer/consumer reverse index. *)
Definition reverse_index (s : ChemNetworkBin) := (_mol_producers s, _mol_consumers s).

(** *** Calls on the store *)

Inductive Call : Type :=
  | CallAddMol (mol : MolDatBase) (meta : option Meta)
  | CallAddOp (op : OpDatBase) (meta : option Meta)
  | CallAddRxn (op : nat) (reactants products : list nat) (meta : option Meta)
  | CallMolMeta (index : Z) (key : Key) (value : PyVal)
  | CallOpMeta (index : Z) (key : Key) (value : PyVal)
  | CallRxnMeta (index : Z) (key : Key) (value : PyVal).

(** The store after a call, whether it returned or raised. *)
Definition after (c : Call) (s : ChemNetworkBin) : ChemNetworkBin :=
  match c with
  | CallAddMol mol meta => (add_mol mol meta s).2
  | CallAddOp op meta => (add_op op meta s).2
  | CallAddRxn op rs ps meta => (add_rxn op rs ps meta s).2
  | CallMolMeta index key value => (mol_meta index key value s).2
  | CallOpMeta index key value => (op_meta index key value s).2
  | CallRxnMeta index key value => (rxn_meta index key value s).2
  end.

(** The store after a sequence of calls on the empty store, the caller
    carrying on after a call that raised. *)
Definition after_all (cs : list Call) : ChemNetworkBin := foldl (λ s c, after c s) init cs.

(** *** Specification of the registries *)

(** An entity list and its identity map agree: an identity is mapped to a
    handle exactly when the entity at that handle has that identity. *)
Definition registry_ok {A K} `{Countable K} (key : A → K) (l : list A)
    (m : gmap K nat) : Prop :=
  ∀ k i, m !! k = Some i ↔ ∃ x, l !! i = Some x ∧ key x = k.

(** What every store built by the store's methods satisfies. *)
Definition store_ok (s : ChemNetworkBin) : Prop :=
  table_frozen s ∧
  registry_ok uid (_mol_list s) (_mol_map s) ∧
  registry_ok uid (_op_list s) (_op_map s) ∧
  registry_ok (λ r : Reaction, r) (_rxn_list s) (_rxn_map s) ∧
  length (_mol_meta s) = length (_mol_list s) ∧
  length (_op_meta s) = length (_op_list s) + length (_rxn_list s) ∧
  _rxn_meta s = [].

(** What an assignment through accessor [f] does to later reads: the
    assigned value is read back under the same index and key, and a read
    under another key or another entity answers as before. *)
Definition accessor_round_trip (meta_of : ChemNetworkBin → list Meta)
    (f : Z → Key → PyVal → St ChemNetworkBin PyVal) : Prop :=
  ∀ (s s' : ChemNetworkBin) (index : Z) (key : Key) (v : Val) (r : PyVal),
    f index key (PyObj v) s = (Ret r, s') →
    f index key PyNone s' = (Ret (PyObj v), s') ∧
    ∀ index' key',
      py_index (length (meta_of s)) index' ≠ py_index (length (meta_of s)) index
        ∨ key' ≠ key →
      (f index' key' PyNone s').1 = (f index' key' PyNone s).1.

End Store.

Arguments mkValueQueryData {Identifier _ _ A} _ _.
Arguments _list {Identifier _ _ A} _.
Arguments _map {Identifier _ _ A} _.

End Network.

(** ** [metadata.py]: metadata states, compositors and analysis steps *)

Module Metadata.

(** A stream of items as a consumer sees it: the items yielded, then either
    normal exhaustion ([None]) or the exception that ended it. *)
Definition Stream (A : Type) : Type := list A * option PyError.

(** A generator that yields [f x] for each [x] of [l] and stops at the first
    exception. *)
Fixpoint generate {A B} (f : A → outcome B) (l : list A) : Stream B :=
  match l with
  | [] => ([], None)
  | x :: l' =>
      match f x with
      | Raise e => ([], Some e)
      | Ret y => let '(ys, r) := generate f l' in (y :: ys, r)
      end
  end.

(** [tuple(f(x) for x in l)] where [f] may raise. *)
Fixpoint tuple_of {A B} (f : A → outcome B) (l : list A) : outcome (list B) :=
  match l with
  | [] => Ret []
  | x :: l' => y ← f x; ys ← tuple_of f l'; Ret (y :: ys)
  end.

(** [d[k]] on a dictionary. *)
Definition getitem `{Countable K} {A} (d : gmap K A) (k : K) : outcome A :=
  match d !! k with
  | Some a => Ret a
  | None => Raise KeyError
  end.

Section Pipeline.
Context {Identifier : Type} `{Countable Identifier}.
Context {Key : Type} `{Countable Key}.
Context {Val : Type}.
Context {MolDatBase OpDatBase : Type}.
Context `{!DataUnit Identifier MolDatBase, !DataUnit Identifier OpDatBase}.

(** A metadata dictionary [Mapping[Hashable, Any]]. *)
Local Abbreviation Meta := (gmap Key Val).

(** The identifier under which reaction metadata is filed: the tuple
    [(operator uid, reactant uids, product uids)]. *)
Definition RxnId : Type := Identifier * list Identifier * list Identifier.

(** Modelled from the spec: [DataPacket]/[DataPacketE] and
    [ReactionExplicit] are declared outside these sources; a reaction view
    exposes operator, ordered reactants, ordered products, and per-entity
    metadata snapshots.  The fields are the ones the code reads and the
    constructors' arguments in the order the code passes them. *)
Record DataPacket (A : Type) : Type := DataPacketE {
  packet_i : nat;
  item : A;
  meta : option Meta
}.
Arguments DataPacketE {A} _ _ _.
Arguments packet_i {A} _.
Arguments item {A} _.
Arguments meta {A} _.

Record ReactionExplicit : Type := mkReactionExplicit {
  operator : DataPacket OpDatBase;
  reactants : list (DataPacket MolDatBase);
  products : list (DataPacket MolDatBase);
  reaction_meta : option Meta
}.

(** *** Declared output keys *)

Record KeyOutput : Type := mkKeyOutput {
  mol_keys : gset Key;
  op_keys : gset Key;
  rxn_keys : gset Key
}.

(** The [KeyError] of [KeyOutput.__and__]; its message names the partition
    and the intersection of the two key sets. *)
Inductive KeyConflict : Type :=
  | ConflictingMolKeys (ks : gset Key)
  | ConflictingOpKeys (ks : gset Key)
  | ConflictingRxnKeys (ks : gset Key).

(** [KeyOutput.__and__] *)
Definition KeyOutput_and (self other : KeyOutput) : KeyConflict + KeyOutput :=
  let new_mol_keys := mol_keys self ∪ mol_keys other in
  if decide (size (mol_keys self) + size (mol_keys other) < size new_mol_keys)
  then inl (ConflictingMolKeys (mol_keys self ∩ mol_keys other))
  else
    let new_op_keys := op_keys self ∪ op_keys other in
    if decide (size (op_keys self) + size (op_keys other) < size new_op_keys)
    then inl (ConflictingOpKeys (op_keys self ∩ op_keys other))
    else
      let new_rxn_keys := rxn_keys self ∪ rxn_keys other in
      if decide (size (rxn_keys self) + size (rxn_keys other) < size new_rxn_keys)
      then inl (ConflictingRxnKeys (rxn_keys self ∩ rxn_keys other))
      else inr (mkKeyOutput new_mol_keys new_op_keys new_rxn_keys).

(** *** Metadata states *)

(** [MetaPropertyStateSingleProp]: the values computed for one key, by
    entity identifier [E], and the key's resolver. *)
Record MetaPropertyStateSingleProp (E : Type) `{Countable E} : Type := mkSingleProp {
  data : gmap E Val;
  resolver : Val → Val → Val
}.
Arguments mkSingleProp {E _ _} _ _.
Arguments data {E _ _} _.
Arguments resolver {E _ _} _.

(** [MetaPropertyStateSingleProp.__or__].  The method updates one of its
    operands in place and returns it; the definition gives the returned
    object's fields.  [resolved_props] is the dictionary the loop over
    [common_keys] builds; [d.update(e)] is [e ∪ d], the union that prefers
    [e]. *)
Definition single_or `{Countable E}
    (self other : MetaPropertyStateSingleProp E) : MetaPropertyStateSingleProp E :=
  if decide (size (data self) = 0) then other
  else if decide (size (data other) = 0)
  then mkSingleProp (data self) (resolver other)
  else
    let common_keys := dom (data self) ∩ dom (data other) in
    if decide (size common_keys = 0)
    then mkSingleProp (data self ∪ data other) (resolver other)
    else
      let resolved_props :=
        intersection_with (λ a b, Some (resolver self a b))
          (data self) (data other) in
      mkSingleProp (resolved_props ∪ (data self ∪ data other)) (resolver other).

Record MetaPropertyState : Type := mkState {
  mol_info : gmap Key (MetaPropertyStateSingleProp Identifier);
  op_info : gmap Key (MetaPropertyStateSingleProp Identifier);
  rxn_info : gmap Key (MetaPropertyStateSingleProp RxnId)
}.

(** One partition of [MetaPropertyState.__or__]; the method repeats this
    block for [mol_info], [op_info] and [rxn_info]. *)
Definition info_or `{Countable E}
    (self other : gmap Key (MetaPropertyStateSingleProp E))
    : gmap Key (MetaPropertyStateSingleProp E) :=
  if decide (size self = 0) then other
  else if decide (size other ≠ 0) then
    let common_keys := dom self ∩ dom other in
    if decide (size common_keys = 0) then other ∪ self
    else
      let resolved_info :=
        intersection_with (λ a b, Some (single_or a b)) self other in
      resolved_info ∪ (other ∪ self)
  else self.

(** [MetaPropertyState.__or__] *)
Definition state_or (self other : MetaPropertyState) : MetaPropertyState :=
  mkState (info_or (mol_info self) (mol_info other))
          (info_or (op_info self) (op_info other))
          (info_or (rxn_info self) (rxn_info other)).

(** *** Property calculators and compositors *)

(** A calculator: its key, its resolver and its call; [X] is what it is
    called on.  The optional [prev_value] is the last argument. *)
Record LocalPropertyCalc (X : Type) : Type := mkCalc {
  key : Key;
  calc_resolver : Val → Val → Val;
  call : X → option Val → option Val
}.
Arguments key {X} _.
Arguments calc_resolver {X} _.
Arguments call {X} _ _ _.

Definition MolPropertyCalc := LocalPropertyCalc (DataPacket MolDatBase).
Definition MolPropertyFromRxnCalc :=
  LocalPropertyCalc (DataPacket MolDatBase * ReactionExplicit).
Definition OpPropertyCalc := LocalPropertyCalc (DataPacket OpDatBase).
Definition OpPropertyFromRxnCalc :=
  LocalPropertyCalc (DataPacket OpDatBase * ReactionExplicit).

Inductive PropertyCompositor : Type :=
  | MolPropertyCompositor (_calc : MolPropertyCalc)
  | MolRxnPropertyCompositor (_calc : MolPropertyFromRxnCalc)
  | OpPropertyCompositor (_calc : OpPropertyCalc)
  | OpRxnPropertyCompositor (_calc : OpPropertyFromRxnCalc)
  | RxnPropertyCompositor (_calc : MolPropertyCalc).

(** [{mol.item.uid: calc for mol, calc in ... if calc is not None}]: a later
    molecule with the same uid replaces an earlier one. *)
Definition mol_props (f : DataPacket MolDatBase → option Val)
    (mols : list (DataPacket MolDatBase)) : gmap Identifier Val :=
  foldl (λ props mol,
           match f mol with
           | Some c => <[uid (item mol) := c]> props
           | None => props
           end) ∅ mols.

(** [PropertyCompositor.__call__] *)
Definition compositor_call (c : PropertyCompositor) (rxn : ReactionExplicit)
    : MetaPropertyState :=
  match c with
  | MolPropertyCompositor _calc | RxnPropertyCompositor _calc =>
      let mols := reactants rxn ++ products rxn in
      let props := mol_props (λ mol, call _calc mol None) mols in
      let single_state := mkSingleProp props (calc_resolver _calc) in
      mkState {[key _calc := single_state]} ∅ ∅
  | MolRxnPropertyCompositor _calc =>
      let mols := reactants rxn ++ products rxn in
      let props := mol_props (λ mol, call _calc (mol, rxn) None) mols in
      let single_state := mkSingleProp props (calc_resolver _calc) in
      mkState {[key _calc := single_state]} ∅ ∅
  | OpPropertyCompositor _calc =>
      match call _calc (operator rxn) None with
      | None => mkState ∅ ∅ ∅
      | Some c =>
          let props := {[uid (item (operator rxn)) := c]} in
          let single_state := mkSingleProp props (calc_resolver _calc) in
          mkState ∅ {[key _calc := single_state]} ∅
      end
  | OpRxnPropertyCompositor _calc =>
      match call _calc (operator rxn, rxn) None with
      | None => mkState ∅ ∅ ∅
      | Some c =>
          let props := {[uid (item (operator rxn)) := c]} in
          let single_state := mkSingleProp props (calc_resolver _calc) in
          mkState ∅ {[key _calc := single_state]} ∅
      end
  end.

(** [PropertyCompositor.keys] *)
Definition keys (c : PropertyCompositor) : KeyOutput :=
  match c with
  | MolPropertyCompositor _calc | RxnPropertyCompositor _calc =>
      mkKeyOutput {[key _calc]} ∅ ∅
  | MolRxnPropertyCompositor _calc => mkKeyOutput {[key _calc]} ∅ ∅
  | OpPropertyCompositor _calc => mkKeyOutput ∅ {[key _calc]} ∅
  | OpRxnPropertyCompositor _calc => mkKeyOutput ∅ {[key _calc]} ∅
  end.

(** [PropertyCompositor.__and__]: the body of the method is the expression
    [...], so a call returns Python's [None] (here Rocq's [None]) and
    raises nothing. *)
Definition PropertyCompositor_and (self other : PropertyCompositor)
    : outcome (option PropertyCompositor) := Ret None.

(** *** Projection of a metadata state onto the reaction stream *)

(** [_mmd]: [i1 | i2] is the dictionary union in which the right operand's
    value is kept for a key of both ([∪] on [gmap] keeps the left one). *)
Definition _mmd (i1 i2 : option Meta) : option Meta :=
  match i1, i2 with
  | None, None => None
  | None, Some _ => i2
  | Some _, None => i1
  | Some d1, Some d2 => Some (d2 ∪ d1)
  end.

(** [info[entity_id][meta_key] = key_val], on the inverted map built so
    far: the inner dictionary is looked up, then assigned to. *)
Definition invert_set `{Countable E} (entity_id : E) (meta_key : Key)
    (key_val : Val) : St (gmap E Meta) unit :=
  info ← st_get;
  inner ← lift (info !! entity_id) KeyError;
  st_put (<[entity_id := <[meta_key := key_val]> inner]> info).

(** One of the three inversion loops of [metalib_to_rxn_meta], from the
    empty dictionary. *)
Definition invert `{Countable E}
    (info : gmap Key (MetaPropertyStateSingleProp E)) : outcome (gmap E Meta) :=
  match for_ (map_to_list info) (λ '(meta_key, single),
          for_ (map_to_list (data single)) (λ '(entity_id, key_val),
            invert_set entity_id meta_key key_val)) ∅ with
  | (Ret _, inverted) => Ret inverted
  | (Raise e, _) => Raise e
  end.

Definition rxn_id (rxn : ReactionExplicit) : RxnId :=
  (uid (item (operator rxn)),
   (λ mol, uid (item mol)) <$> reactants rxn,
   (λ mol, uid (item mol)) <$> products rxn).

(** The body of the loop over [rxns] in [metalib_to_rxn_meta]: the item
    yielded for [rxn_all], or the exception raised on the way. *)
Definition project (mol_info op_info : gmap Identifier Meta)
    (rxn_info : gmap RxnId Meta) (rxn_all : ReactionExplicit * bool)
    : outcome (ReactionExplicit * bool) :=
  let rxn := rxn_all.1 in
  op_new ← getitem op_info (uid (item (operator rxn)));
  let op_data :=
    DataPacketE (packet_i (operator rxn)) (item (operator rxn))
      (_mmd (meta (operator rxn)) (Some op_new)) in
  let mol_data := λ mol : DataPacket MolDatBase,
    mol_new ← getitem mol_info (uid (item mol));
    Ret (DataPacketE (packet_i mol) (item mol) (_mmd (meta mol) (Some mol_new))) in
  reactant_data ← tuple_of mol_data (reactants rxn);
  product_data ← tuple_of mol_data (products rxn);
  rxn_new ← getitem rxn_info (rxn_id rxn);
  Ret (mkReactionExplicit op_data reactant_data product_data
         (_mmd (reaction_meta rxn) (Some rxn_new)),
       rxn_all.2).

(** [metalib_to_rxn_meta], a generator: nothing runs before the first item
    is requested, and the inversion loops run before the first [yield]. *)
Definition metalib_to_rxn_meta (metalib : MetaPropertyState)
    (rxns : list (ReactionExplicit * bool)) : Stream (ReactionExplicit * bool) :=
  match invert (mol_info metalib) with
  | Raise e => ([], Some e)
  | Ret mol_info' =>
      match invert (op_info metalib) with
      | Raise e => ([], Some e)
      | Ret op_info' =>
          match invert (rxn_info metalib) with
          | Raise e => ([], Some e)
          | Ret rxn_info' => generate (project mol_info' op_info' rxn_info') rxns
          end
      end
  end.

(** *** Specification of the projection *)

(** A partition of a metadata state holds some (key, entity, value). *)
Definition has_entry `{Countable E}
    (info : gmap Key (MetaPropertyStateSingleProp E)) : Prop :=
  ∃ meta_key single entity_id key_val,
    info !! meta_key = Some single ∧ data single !! entity_id = Some key_val.

(** The metadata state holds a value under key [k] for entity
    [entity_id]. *)
Definition computed `{Countable E}
    (info : gmap Key (MetaPropertyStateSingleProp E)) (entity_id : E) (k : Key)
    : Prop :=
  ∃ single key_val, info !! k = Some single ∧ data single !! entity_id = Some key_val.

(** [new] holds the prior value under every key of [prior] for which a
    value was computed. *)
Definition prior_wins (is_computed : Key → Prop) (prior new : option Meta) : Prop :=
  ∀ k v, prior ≫= (.!! k) = Some v → is_computed k → new ≫= (.!! k) = Some v.

Definition packet_keeps_prior {A} `{!DataUnit Identifier A}
    (info : gmap Key (MetaPropertyStateSingleProp Identifier))
    (old new : DataPacket A) : Prop :=
  prior_wins (computed info (uid (item old))) (meta old) (meta new).

(** An item of the output against the item of the input it stands for: the
    reaction, its operator, its reactants and its products keep their prior
    values. *)
Definition reaction_keeps_prior (metalib : MetaPropertyState)
    (old new : ReactionExplicit * bool) : Prop :=
  prior_wins (computed (rxn_info metalib) (rxn_id old.1))
    (reaction_meta old.1) (reaction_meta new.1) ∧
  packet_keeps_prior (op_info metalib) (operator old.1) (operator new.1) ∧
  Forall2 (packet_keeps_prior (mol_info metalib)) (reactants old.1) (reactants new.1) ∧
  Forall2 (packet_keeps_prior (mol_info metalib)) (products old.1) (products new.1).

(** *** Analysis steps *)

(** [logreduce] is defined in [pickaxe_generic.utils], outside these
    sources: it is a parameter of the pipeline.  It receives the binary
    operation and the fragments, and returns the reduced state or raises. *)
Context (logreduce : (MetaPropertyState → MetaPropertyState → MetaPropertyState)
                     → list MetaPropertyState → outcome MetaPropertyState).

(** A reaction filter ([ReactionFilterBase], outside these sources) is
    called on a reaction and answers with a boolean. *)
Inductive RxnAnalysisStep : Type :=
  | RxnAnalysisStepCompound (step1 step2 : RxnAnalysisStep)
  | RxnAnalysisStepProp (_prop : PropertyCompositor)
  | RxnAnalysisStepFilter (_arg : ReactionExplicit → bool).

(** [RxnAnalysisStep.__rshift__] *)
Definition rshift (self other : RxnAnalysisStep) : RxnAnalysisStep :=
  RxnAnalysisStepCompound self other.

(** The fragments an annotation step reduces: one compositor call per item
    of [rxn_list] whose flag is true. *)
Definition meta_lib_generator (_prop : PropertyCompositor)
    (rxn_list : list (ReactionExplicit * bool)) : list MetaPropertyState :=
  (λ rxn, compositor_call _prop rxn.1) <$> filter (λ rxn, rxn.2 = true) rxn_list.

(** [RxnAnalysisStepProp.execute]: [list(rxns)] drains the upstream stream,
    so an exception raised upstream surfaces before anything is yielded. *)
Definition execute_prop (_prop : PropertyCompositor)
    (rxns : Stream (ReactionExplicit * bool)) : Stream (ReactionExplicit * bool) :=
  match rxns with
  | (_, Some e) => ([], Some e)
  | (rxn_list, None) =>
      match logreduce state_or (meta_lib_generator _prop rxn_list) with
      | Raise e => ([], Some e)
      | Ret prop_map => metalib_to_rxn_meta prop_map rxn_list
      end
  end.

(** [RxnAnalysisStepFilter.execute], a generator over the upstream items. *)
Definition execute_filter (_arg : ReactionExplicit → bool)
    (rxns : Stream (ReactionExplicit * bool)) : Stream (ReactionExplicit * bool) :=
  ((λ '(rxn, pass_filter),
      if negb pass_filter || negb (_arg rxn) then (rxn, false) else (rxn, true))
     <$> rxns.1,
   rxns.2).

(** [RxnAnalysisStep.execute] *)
Fixpoint execute (step : RxnAnalysisStep)
    (rxns : Stream (ReactionExplicit * bool)) : Stream (ReactionExplicit * bool) :=
  match step with
  | RxnAnalysisStepCompound step1 step2 => execute step2 (execute step1 rxns)
  | RxnAnalysisStepProp _prop => execute_prop _prop rxns
  | RxnAnalysisStepFilter _arg => execute_filter _arg rxns
  end.

(** *** Specification of the pipeline *)

(** Whether a step contains an annotation step. *)
Fixpoint annotates (step : RxnAnalysisStep) : bool :=
  match step with
  | RxnAnalysisStepCompound step1 step2 => annotates step1 || annotates step2
  | RxnAnalysisStepProp _ => true
  | RxnAnalysisStepFilter _ => false
  end.

(** Whether every filter of a step accepts a reaction. *)
Fixpoint accepted (step : RxnAnalysisStep) (rxn : ReactionExplicit) : bool :=
  match step with
  | RxnAnalysisStepCompound step1 step2 => accepted step1 rxn && accepted step2 rxn
  | RxnAnalysisStepProp _ => true
  | RxnAnalysisStepFilter _arg => _arg rxn
  end.

(** The fragments of a partition all carry, key by key, the resolver [r]. *)
Definition resolved_by `{Countable E} (r : Key → Val → Val → Val)
    (info : gmap Key (MetaPropertyStateSingleProp E)) : Prop :=
  ∀ k single, info !! k = Some single → resolver single = r k.

(** The merge of two optional entries of a partition. *)
Definition merged {A} (f : A → A → A) (a b : option A) : option A :=
  match a, b with
  | Some x, Some y => Some (f x y)
  | Some x, None => Some x
  | None, Some y => Some y
  | None, None => None
  end.

(** *** Metadata updates *)

(** [ChemNetwork] is abstract here; an update reads it. *)
Context {ChemNetwork : Type}.

(** [MetaUpdate]: a [MetaUpdateMultiple] is its tuple [_composed_updates];
    any other update is its [__call__]. *)
#[warning="-register-all"] Inductive MetaUpdate : Type :=
  | MetaUpdateOther (__call__ : ReactionExplicit → ChemNetwork → option ReactionExplicit)
  | MetaUpdateMultiple (_composed_updates : list MetaUpdate).

(** [MetaUpdateMultiple.__init__] *)
Definition MetaUpdateMultiple_init (update_list : list MetaUpdate) : MetaUpdate :=
  MetaUpdateMultiple
    (foldl (λ updates update,
              match update with
              | MetaUpdateMultiple _composed_updates => updates ++ _composed_updates
              | MetaUpdateOther _ => updates ++ [update]
              end) [] update_list).

(** [MetaUpdate.__add__] *)
Definition MetaUpdate_add (self other : MetaUpdate) : MetaUpdate :=
  MetaUpdateMultiple_init [self; other].

(** [MetaUpdate.__call__]; for a [MetaUpdateMultiple], the loop over the
    composed updates that keeps the current reaction where an update returns
    [None]. *)
Fixpoint MetaUpdate_call (update : MetaUpdate) (reaction : ReactionExplicit)
    (network : ChemNetwork) : option ReactionExplicit :=
  match update with
  | MetaUpdateOther __call__ => __call__ reaction network
  | MetaUpdateMultiple _composed_updates =>
      Some (foldl (λ cur_reaction update,
                     match MetaUpdate_call update cur_reaction network with
                     | Some new_reaction => new_reaction
                     | None => cur_reaction
                     end) reaction _composed_updates)
  end.

(** The reaction after an update: the one it returns, the one it was given
    when it returns [None]. *)
Definition updated (update : MetaUpdate) (reaction : ReactionExplicit)
    (network : ChemNetwork) : ReactionExplicit :=
  match MetaUpdate_call update reaction network with
  | Some new_reaction => new_reaction
  | None => reaction
  end.

End Pipeline.

Arguments mkSingleProp {Val E _ _} _ _.
Arguments data {Val E _ _} _.
Arguments resolver {Val E _ _} _ _ _.
Arguments DataPacketE {Key _ _ Val A} _ _ _.
Arguments packet_i {Key _ _ Val A} _.
Arguments item {Key _ _ Val A} _.
Arguments meta {Key _ _ Val A} _.
Arguments mkCalc {Key Val X} _ _ _.
Arguments key {Key Val X} _.
Arguments calc_resolver {Key Val X} _ _ _.
Arguments call {Key Val X} _ _ _.

End Metadata.

(** ** [containers.py]: libraries of objects keyed by their uid *)

Module Containers.

Section Library.
Context {Identifier : Type} `{Countable Identifier}.
Context {DataUnitGen Blob : Type}.
Context `{!DataUnit Identifier DataUnitGen}.
(** [obj.blob], the binary form of an object. *)
Context (blob : DataUnitGen → Blob).

(** The argument of [add] (and, when given, of [__init__]): one object, or
    an iterable of objects.  An object is taken not to be iterable itself. *)
Inductive Objects : Type :=
  | One (obj : DataUnitGen)
  | Many (objs : list DataUnitGen).

(** *** [ObjectLibraryBasic] *)

Record ObjectLibraryBasic : Type := mkBasic {
  _lookup : gmap Identifier DataUnitGen
}.

(** [ObjectLibraryBasic.add] *)
Definition Basic_add (self : ObjectLibraryBasic) (obj : Objects)
    : ObjectLibraryBasic :=
  match obj with
  | Many objs =>
      mkBasic (foldl (λ lookup item, <[uid item := item]> lookup) (_lookup self) objs)
  | One obj => mkBasic (<[uid obj := obj]> (_lookup self))
  end.

(** [ObjectLibraryBasic.__init__]; [objects] is [None] by default. *)
Definition Basic_init (objects : option Objects) : ObjectLibraryBasic :=
  match objects with
  | Some objs => Basic_add (mkBasic ∅) objs
  | None => mkBasic ∅
  end.

(** [ids], [__contains__], [__getitem__], [__iter__] and [__len__].  The
    two iterations are given as lists in the order of [map_to_list], which
    is not the order of insertion. *)
Definition Basic_ids (self : ObjectLibraryBasic) : list Identifier :=
  (map_to_list (_lookup self)).*1.
Definition Basic_contains (self : ObjectLibraryBasic) (item : DataUnitGen) : bool :=
  bool_decide (uid item ∈ dom (_lookup self)).
Definition Basic_getitem (self : ObjectLibraryBasic) (item : Identifier)
    : outcome DataUnitGen :=
  match _lookup self !! item with
  | Some obj => Ret obj
  | None => Raise KeyError
  end.
Definition Basic_iter (self : ObjectLibraryBasic) : list DataUnitGen :=
  (map_to_list (_lookup self)).*2.
Definition Basic_len (self : ObjectLibraryBasic) : nat := size (_lookup self).

(** *** [ObjectLibraryKeyVal] *)

Record ObjectLibraryKeyVal : Type := mkKeyVal {
  _initializer : Blob → DataUnitGen;
  _kv_lookup : gmap Identifier Blob
}.

(** [ObjectLibraryKeyVal.add] *)
Definition KeyVal_add (self : ObjectLibraryKeyVal) (obj : Objects)
    : ObjectLibraryKeyVal :=
  match obj with
  | Many objs =>
      mkKeyVal (_initializer self)
        (foldl (λ lookup item, <[uid item := blob item]> lookup) (_kv_lookup self) objs)
  | One obj =>
      mkKeyVal (_initializer self) (<[uid obj := blob obj]> (_kv_lookup self))
  end.

(** [ObjectLibraryKeyVal.__init__]; both arguments are [None] by default. *)
Definition KeyVal_init (objects : option Objects)
    (initializer : option (Blob → DataUnitGen)) : outcome ObjectLibraryKeyVal :=
  match initializer with
  | None => Raise ValueError
  | Some initializer =>
      match objects with
      | Some objs => Ret (KeyVal_add (mkKeyVal initializer ∅) objs)
      | None => Ret (mkKeyVal initializer ∅)
      end
  end.

Definition KeyVal_ids (self : ObjectLibraryKeyVal) : list Identifier :=
  (map_to_list (_kv_lookup self)).*1.
Definition KeyVal_contains (self : ObjectLibraryKeyVal) (item : DataUnitGen) : bool :=
  bool_decide (uid item ∈ dom (_kv_lookup self)).
Definition KeyVal_getitem (self : ObjectLibraryKeyVal) (item : Identifier)
    : outcome DataUnitGen :=
  match _kv_lookup self !! item with
  | Some b => Ret (_initializer self b)
  | None => Raise KeyError
  end.
Definition KeyVal_iter (self : ObjectLibraryKeyVal) : list DataUnitGen :=
  _initializer self <$> (map_to_list (_kv_lookup self)).*2.
Definition KeyVal_len (self : ObjectLibraryKeyVal) : nat := size (_kv_lookup self).

(** *** Specification *)

(** The objects an argument of [add] stands for, in order. *)
Definition objects_of (obj : Objects) : list DataUnitGen :=
  match obj with
  | One obj => [obj]
  | Many objs => objs
  end.

(** The last object of [objs] with identifier [u]. *)
Definition last_with (u : Identifier) (objs : list DataUnitGen) : option DataUnitGen :=
  last (filter (λ obj, uid obj = u) objs).

End Library.

End Containers.

(** ** Concrete molecules, operators and calculators, for evaluation *)

Module Example.
Import Network.

(** A molecule is its identifier; an operator lists, slot by slot, the
    identifiers it accepts. *)
Record Mol : Type := mkMol { mol_id : string }.
Record Op : Type := mkOp { op_id : string; accepts : list (list string) }.

#[global] Instance Mol_unit : DataUnit string Mol := mol_id.
#[global] Instance Op_unit : DataUnit string Op := op_id.
#[global] Instance Op_dat : OpDat Mol Op := {|
  op_len o := length (accepts o);
  compat o m argnum :=
    match accepts o !! argnum with
    | Some ids => bool_decide (mol_id m ∈ ids)
    | None => false
    end
|}.

Definition Store : Type := @ChemNetworkBin string _ _ string _ _ Z Mol Op.
Definition empty : Store := init.

Definition m1 := mkMol "m1".
Definition m2 := mkMol "m2".
Definition m3 := mkMol "m3".
(** An operator of arity 2 that accepts m1, m2 in slot 0 and m2, m3 in
    slot 1. *)
Definition O := mkOp "O" [["m1"; "m2"]; ["m2"; "m3"]].

(** *** Stores and calls *)

(** Molecules first, then the operator; and the operator first. *)
Definition mols_first : list (@Call string _ _ Z Mol Op) :=
  [CallAddMol m1 None; CallAddMol m2 None; CallAddMol m3 None; CallAddOp O None].
Definition op_first : list (@Call string _ _ Z Mol Op) :=
  [CallAddOp O None; CallAddMol m1 None; CallAddMol m2 None; CallAddMol m3 None].

(** The store holding m1, m2, m3 and O. *)
Definition populated : Store := after_all mols_first.

(** The store holding O alone. *)
Definition op_only : Store := after_all [CallAddOp O None].

(** The store [populated] after [add_rxn(0, [0, 1], [2])]. *)
Definition reacted : Store := (add_rxn 0 [0; 1] [2] None populated).2.

(** The store holding m1 alone, with metadata [{"mass": 1}]. *)
Definition weighed : Store :=
  (add_mol m1 (Some {["mass" := PyObj 1%Z]}) empty).2.

(** *** A pipeline over these molecules and operators *)

Import Metadata.

Definition Packet (A : Type) : Type := @DataPacket string _ _ Z A.
Definition RxnView : Type := @ReactionExplicit string _ _ Z Mol Op.
Definition Fragment : Type := @MetaPropertyState string _ _ string _ _ Z.

(** Modelled from the spec: [logreduce] is not among the sources; the spec
    says that the fragments of the passing reactions are reduced into one
    metadata state by the merge rule, in no fixed grouping.  This one folds
    from the left and, like [functools.reduce], raises [TypeError] when
    there is no fragment. *)
Definition logreduce (f : Fragment → Fragment → Fragment)
    (fragments : list Fragment) : outcome Fragment :=
  match fragments with
  | [] => Raise TypeError
  | x :: l => Ret (foldl f x l)
  end.

(** A molecule calculator for key ["mass"]: every molecule weighs 1. *)
Definition mass : @LocalPropertyCalc string Z (Packet Mol) :=
  mkCalc "mass" Z.add (λ _ _, Some 1%Z).

Definition packet {A} (i : nat) (x : A) : Packet A := DataPacketE i x None.

(** R1: O applied to m1, m2 giving m3; R2: O applied to m2, m3 giving m1. *)
Definition R1 : RxnView :=
  mkReactionExplicit (packet 0 O) [packet 0 m1; packet 1 m2] [packet 2 m3] None.
Definition R2 : RxnView :=
  mkReactionExplicit (packet 0 O) [packet 1 m2; packet 2 m3] [packet 0 m1] None.

(** A filter that keeps the reactions whose only product is m3: it keeps
    R1 and rejects R2. *)
Definition produces_m3 (rxn : RxnView) : bool :=
  match products rxn with
  | [p] => Nat.eqb (packet_i p) 2
  | _ => false
  end.

(** A reaction O: () -> () whose own metadata already holds mass = 1. *)
Definition R0 : RxnView :=
  mkReactionExplicit (packet 0 O) [] [] (Some {["mass" := 1%Z]}).

(** Two fragments for one key: [left] holds a value and resolves by sum,
    [right] holds nothing and resolves by maximum. *)
Definition left : @MetaPropertyStateSingleProp Z string _ _ :=
  mkSingleProp {["m1" := 1%Z]} Z.add.
Definition right : @MetaPropertyStateSingleProp Z string _ _ :=
  mkSingleProp ∅ Z.max.

(** *** Further stores, fragments and libraries *)

(** Calls that build a store with m1 (mass 1), m2, m3, the operator O and
    the reaction O: m1, m2 -> m3 (yield 5). *)
Definition built_entities : list (@Call string _ _ Z Mol Op) :=
  [CallAddMol m1 (Some {["mass" := PyObj 1%Z]}); CallAddMol m2 None;
   CallAddMol m3 None; CallAddOp O None].
Definition built : list (@Call string _ _ Z Mol Op) :=
  built_entities ++ [CallAddRxn 0 [0; 1] [2] (Some {["yield" := PyObj 5%Z]})].

(** A fourth molecule, and the store after it is added with mass 4. *)
Definition m4 := mkMol "m4".
Definition with_m4 : Store :=
  (add_mol m4 (Some {["mass" := PyObj 4%Z]}) (after_all built)).2.

(** The store [weighed] after [mol_meta(0, "mass", 7)]. *)
Definition reweighed : Store := (mol_meta 0 "mass" (PyObj 7%Z) weighed).2.

(** Three fragments for one key, all resolving by sum. *)
Definition frag_a : @MetaPropertyStateSingleProp Z string _ _ :=
  mkSingleProp {["m1" := 1%Z; "m2" := 2%Z]} Z.add.
Definition frag_b : @MetaPropertyStateSingleProp Z string _ _ :=
  mkSingleProp {["m2" := 3%Z]} Z.add.
Definition frag_c : @MetaPropertyStateSingleProp Z string _ _ :=
  mkSingleProp {["m1" := 4%Z; "m3" := 5%Z]} Z.add.

(** The fragments of the mass compositor for R1 and for R2. *)
Definition mass_R1 : Fragment := compositor_call (MolPropertyCompositor mass) R1.
Definition mass_R2 : Fragment := compositor_call (MolPropertyCompositor mass) R2.

(** A filter that keeps the reactions with two reactants. *)
Definition two_reactants (rxn : RxnView) : bool := Nat.eqb (length (reactants rxn)) 2.

(** A library of molecules. *)
Definition library : @Containers.ObjectLibraryBasic string _ _ Mol :=
  foldl Containers.Basic_add
    (Containers.Basic_init (Some (Containers.Many [m1; m2]))) [Containers.One m3].
End Example.

(** * Properties of the entity store *)

Section StoreProps.
Import Network.
Context {Identifier : Type} `{Countable Identifier}.
Context {Key : Type} `{Countable Key}.
Context {Val : Type}.
Context {MolDatBase OpDatBase : Type}.
Context `{!DataUnit Identifier MolDatBase, !DataUnit Identifier OpDatBase}.
Context `{!OpDat MolDatBase OpDatBase}.

Abbreviation Net := (@ChemNetworkBin Identifier _ _ Key _ _ Val MolDatBase OpDatBase).
Abbreviation Call' := (@Call Key _ _ Val MolDatBase OpDatBase).
Abbreviation MolRef' := (@MolRef Identifier MolDatBase).
Abbreviation PyVal' := (@PyVal Val).
Abbreviation Meta' := (gmap Key PyVal').

(** *** The handles an operator accepts *)


Lemma elem_of_enumerate_from {A} (k i : nat) (x : A) (l : list A) :
  (i, x) ∈ enumerate_from k l ↔ k ≤ i ∧ l !! (i - k) = Some x.
Proof.
  revert k. induction l as [|y l IH]; intros k; simpl.
  - rewrite elem_of_nil. split; [done|]. intros [_ Hl]. by rewrite lookup_nil in Hl.
  - rewrite elem_of_cons, IH. split.
    + intros [[= -> ->]|[Hk Hl]].
      * split; [lia|]. by rewrite Nat.sub_diag.
      * split; [lia|]. replace (i - k) with (S (i - S k)) by lia. done.
    + intros [Hk Hl]. destruct (decide (i = k)) as [->|Hne].
      * left. rewrite Nat.sub_diag in Hl. simpl in Hl. congruence.
      * right. split; [lia|]. replace (i - k) with (S (i - S k)) in Hl by lia. done.
Qed.

Lemma elem_of_compat_handles (op : OpDatBase) (argnum m : nat)
    (mols : list MolDatBase) :
  m ∈ compat_handles op argnum 0 mols ↔
    ∃ mol, mols !! m = Some mol ∧ compat op mol argnum = true.
Proof.
  unfold compat_handles. rewrite list_elem_of_bind. split.
  - intros [[i mol] [Hm Hin]]. apply elem_of_enumerate_from in Hin as [_ Hl].
    rewrite Nat.sub_0_r in Hl. exists mol.
    destruct (compat op mol argnum); [|by apply elem_of_nil in Hm].
    apply list_elem_of_singleton in Hm as ->. done.
  - intros (mol & Hl & Hc). exists (m, mol). rewrite Hc. split.
    + by apply list_elem_of_singleton.
    + apply elem_of_enumerate_from. rewrite Nat.sub_0_r. split; [lia|done].
Qed.


(** *** What an insertion does *)

Lemma add_mol_known (s : Net) (mol : MolDatBase) meta (h : nat) :
  _mol_map s !! uid mol = Some h → add_mol mol meta s = (Ret h, s).
Proof.
  intros Hh. unfold add_mol, mbind, St_mbind, st_bind, st_get. by rewrite Hh.
Qed.

Lemma add_mol_new (s : Net) (mol : MolDatBase) meta :
  _mol_map s !! uid mol = None →
  add_mol mol meta s = (Raise NameError, mol_registered s mol meta).
Proof.
  intros Hnew.
  unfold add_mol, ops, undefined_name, mbind, St_mbind, st_bind, st_get, st_modify,
    st_raise.
  rewrite Hnew. by destruct s.
Qed.

Lemma add_op_known (s : Net) (op : OpDatBase) meta (h : nat) :
  _op_map s !! uid op = Some h → add_op op meta s = (Ret h, s).
Proof.
  intros Hh. unfold add_op, mbind, St_mbind, st_bind, st_get. by rewrite Hh.
Qed.

Lemma add_op_new (s : Net) (op : OpDatBase) meta :
  _op_map s !! uid op = None →
  add_op op meta s =
    (Ret (length (_op_list s)),
     mkNet (_mol_list s) (_op_list s ++ [op]) (_rxn_list s)
       (_mol_map s) (<[uid op := length (_op_list s)]> (_op_map s)) (_rxn_map s)
       (_mol_meta s) (_op_meta s ++ [new_meta meta]) (_rxn_meta s)
       (_mol_producers s) (_mol_consumers s)
       (_compat_table s ++ table_of [op] (_mol_list s))).
Proof.
  intros Hnew.
  unfold add_op, mbind, St_mbind, st_bind, st_get, st_modify, st_gets. rewrite Hnew.
  by destruct s.
Qed.

(** C7.  What [add_mol] does with a molecule that is not registered: it
    appends the molecule, its identity and its metadata, and then raises
    [NameError] on [self.ops]; the loop that tests the molecule against the
    operators is not reached, and the compatibility table is left as it
    was. *)
Theorem add_mol_leaves_table (s : Net) (mol : MolDatBase) meta :
  _mol_map s !! uid mol = None →
  add_mol mol meta s = (Raise NameError, mol_registered s mol meta).
Proof. apply add_mol_new. Qed.

(** *** Insertion *)

Lemma add_mol_returns (s s' : Net) (mol : MolDatBase) meta (h : nat) :
  add_mol mol meta s = (Ret h, s') → _mol_map s' !! uid mol = Some h.
Proof.
  destruct (_mol_map s !! uid mol) as [h0|] eqn:Hm.
  - rewrite (add_mol_known _ _ _ _ Hm). by intros [= <- <-].
  - by rewrite (add_mol_new _ _ _ Hm).
Qed.

Lemma add_op_returns (s s' : Net) (op : OpDatBase) meta (h : nat) :
  add_op op meta s = (Ret h, s') → _op_map s' !! uid op = Some h.
Proof.
  unfold add_op, mbind, St_mbind, st_bind, st_get, st_modify, st_gets.
  destruct (_op_map s !! uid op) as [h0|] eqn:Hm.
  - unfold st_ret. by intros [= <- <-].
  - unfold st_ret. intros [= <- <-]. destruct s; simpl. by apply lookup_insert_eq.
Qed.

Lemma add_rxn_known (s : Net) (op : nat) (rs ps : list nat) meta (h : nat) :
  _rxn_map s !! mkReaction op rs ps = Some h →
  add_rxn op rs ps meta s = (Ret h, s).
Proof.
  intros Hh. unfold add_rxn, mbind, St_mbind, st_bind, st_get. by rewrite Hh.
Qed.

Lemma add_rxn_new (s : Net) (op : nat) (rs ps : list nat) meta :
  _rxn_map s !! mkReaction op rs ps = None →
  add_rxn op rs ps meta s =
    match rs, ps with
    | _ :: _, _ :: _ => (Ret (length (_rxn_list s)), rxn_appended s op rs ps meta)
    | _, _ => (Raise ValueError, s)
    end.
Proof.
  intros Hnew.
  unfold add_rxn, mbind, St_mbind, st_bind, st_get, st_modify, py_max, st_raise,
    st_ret, discarded.
  rewrite Hnew. destruct rs as [|r rs]; [done|]. destruct ps as [|p ps]; [done|].
  repeat case_decide; by destruct s.
Qed.

Lemma add_rxn_returns (s s' : Net) (op : nat) (rs ps : list nat) meta (h : nat) :
  add_rxn op rs ps meta s = (Ret h, s') →
  _rxn_map s' !! mkReaction op rs ps = Some h.
Proof.
  destruct (_rxn_map s !! mkReaction op rs ps) as [h0|] eqn:Hm.
  - rewrite (add_rxn_known _ _ _ _ _ _ Hm). by intros [= <- <-].
  - rewrite (add_rxn_new _ _ _ _ _ Hm).
    destruct rs; [done|]. destruct ps; [done|].
    intros [= <- <-]. simpl. by apply lookup_insert_eq.
Qed.


(** C1.  What [add_rxn] does with a novel reaction whose reactant and
    product sequences are not empty: whatever the handles, also beyond the
    molecule and operator registries, the call returns the next reaction
    handle and the reaction record is appended; no [IndexError] is
    raised. *)
Theorem add_rxn_unchecked (s : Net) (op : nat) (rs ps : list nat) meta :
  rs ≠ [] → ps ≠ [] → _rxn_map s !! mkReaction op rs ps = None →
  add_rxn op rs ps meta s =
    (Ret (length (_rxn_list s)), rxn_appended s op rs ps meta).
Proof.
  intros Hrs Hps Hnew. rewrite (add_rxn_new _ _ _ _ _ Hnew).
  destruct rs; [done|]. by destruct ps.
Qed.

(** *** The producer/consumer reverse index *)

Lemma add_mol_reverse_index (s : Net) (mol : MolDatBase) meta :
  reverse_index (add_mol mol meta s).2 = reverse_index s.
Proof.
  destruct (_mol_map s !! uid mol) as [h0|] eqn:Hm.
  - by rewrite (add_mol_known _ _ _ _ Hm).
  - by rewrite (add_mol_new _ _ _ Hm).
Qed.

Lemma add_op_reverse_index (s : Net) (op : OpDatBase) meta :
  reverse_index (add_op op meta s).2 = reverse_index s.
Proof.
  unfold add_op, mbind, St_mbind, st_bind, st_get, st_modify, st_gets.
  destruct (_op_map s !! uid op) as [h0|]; [done|]. by destruct s.
Qed.

Lemma add_rxn_reverse_index (s : Net) (op : nat) (rs ps : list nat) meta :
  reverse_index (add_rxn op rs ps meta s).2 = reverse_index s ∧
  _mol_map (add_rxn op rs ps meta s).2 = _mol_map s.
Proof.
  destruct (_rxn_map s !! mkReaction op rs ps) as [h0|] eqn:Hm.
  - by rewrite (add_rxn_known _ _ _ _ _ _ Hm).
  - rewrite (add_rxn_new _ _ _ _ _ Hm). destruct rs; [done|]. by destruct ps.
Qed.

Lemma after_reverse_index (c : Call') (s : Net) :
  reverse_index (after c s) = reverse_index s.
Proof.
  destruct c; simpl.
  - apply add_mol_reverse_index.
  - apply add_op_reverse_index.
  - apply add_rxn_reverse_index.
  - unfold mol_meta. by destruct (meta_access _ _ _ _), s.
  - unfold op_meta. by destruct (meta_access _ _ _ _), s.
  - unfold rxn_meta. by destruct (meta_access _ _ _ _), s.
Qed.

Lemma after_all_reverse_index (cs : list Call') :
  reverse_index (after_all cs) = (∅, ∅).
Proof.
  unfold after_all. induction cs as [|c cs IH] using rev_ind; [done|].
  by rewrite foldl_app, <- IH; simpl; rewrite after_reverse_index.
Qed.

Lemma reverse_lookup_empty (mol : MolRef') (s : Net) :
  (reverse_lookup ∅ mol s).1 = Raise KeyError.
Proof.
  destruct mol as [i|m|u]; simpl; [done|..];
    unfold mbind, St_mbind, st_bind, st_get, lift, st_ret, st_raise;
    by destruct (_mol_map s !! _).
Qed.

Lemma reverse_lookup_ext (index : gmap nat (gset nat)) (mol : MolRef')
    (s s' : Net) :
  _mol_map s = _mol_map s' →
  (reverse_lookup index mol s).1 = (reverse_lookup index mol s').1.
Proof.
  intros Hm. destruct mol as [i|m|u]; simpl;
    unfold mbind, St_mbind, st_bind, st_get, lift, st_ret, st_raise.
  - by destruct (index !! i).
  - rewrite Hm. destruct (_mol_map s' !! uid m) as [i|]; [|done].
    by destruct (index !! i).
  - rewrite Hm. destruct (_mol_map s' !! u) as [i|]; [|done].
    by destruct (index !! i).
Qed.


(** *** Metadata accessors *)

Lemma meta_access_read (table : list Meta') (index : Z) (key : Key) :
  meta_access table index key PyNone =
    (match py_index (length table) index with
     | None => Raise IndexError
     | Some i =>
         match table !! i with
         | None => Raise IndexError
         | Some d => match d !! key with
                     | Some v => Ret v
                     | None => Raise KeyError
                     end
         end
     end, table).
Proof.
  unfold meta_access. destruct (py_index _ _) as [i|]; simpl; [|done].
  destruct (table !! i) as [d|]; [|done]. by destruct (d !! key).
Qed.

Lemma meta_access_no_None (table : list Meta') (index : Z) (key : Key)
    (value : PyVal') (i : nat) (d : Meta') (k : Key) :
  (meta_access table index key value).2 !! i = Some d → d !! k = Some PyNone →
  ∃ d0, table !! i = Some d0 ∧ d0 !! k = Some PyNone.
Proof.
  destruct value as [|v].
  - rewrite meta_access_read. simpl. eauto.
  - unfold meta_access. destruct (py_index _ _) as [j|] eqn:Hj; simpl; [|by eauto].
    destruct (table !! j) as [dj|] eqn:Hdj; simpl; [|by eauto].
    destruct (decide (i = j)) as [->|Hne].
    + rewrite list_lookup_insert_eq by (by eapply lookup_lt_Some).
      intros [= <-]. destruct (decide (k = key)) as [->|Hk].
      * by rewrite lookup_insert_eq.
      * rewrite lookup_insert_ne by done. eauto.
    + rewrite list_lookup_insert_ne by done. eauto.
Qed.

Lemma accessor_contract_of (meta_of : Net → list Meta')
    (set : list Meta' → Net → Net) (f : Z → Key → PyVal' → St Net PyVal') :
  (∀ s, set (meta_of s) s = s) →
  (∀ s t, meta_of (set t s) = t) →
  (∀ index key value s,
     f index key value s =
       ((meta_access (meta_of s) index key value).1,
        set (meta_access (meta_of s) index key value).2 s)) →
  accessor_contract meta_of f.
Proof.
  intros Hid Hget Hf s index key. split; [|split].
  - rewrite Hf, meta_access_read. simpl. rewrite Hid. eexists. split; [done|].
    split.
    + by intros ->.
    + by intros i d -> ->.
  - intros v. rewrite Hf. do 2 eexists. split; [done|]. unfold meta_access. split.
    + intros ->. simpl. by rewrite Hid.
    + intros i d -> ->. simpl. by rewrite Hget.
  - intros value i d k. rewrite Hf. simpl. rewrite Hget.
    apply meta_access_no_None.
Qed.

(** C10.  For [mol_meta], [op_meta] and [rxn_meta]: called with [None] the
    accessor reads ([IndexError] for an index out of range, [KeyError] for
    an absent key, the stored value otherwise) and leaves the store as it
    is; called with an object it assigns the object under the key; and no
    call brings a [None] value into a metadata dictionary that did not
    hold it already. *)
Theorem meta_None_is_a_read :
  accessor_contract (_mol_meta : Net → _) mol_meta ∧
  accessor_contract (_op_meta : Net → _) op_meta ∧
  accessor_contract (_rxn_meta : Net → _) rxn_meta.
Proof.
  split; [|split].
  - apply (accessor_contract_of _ (λ t, set_mol_meta (λ _, t))).
    + by intros [].
    + by intros [].
    + intros. unfold mol_meta. by destruct (meta_access _ _ _ _).
  - apply (accessor_contract_of _ (λ t, set_op_meta (λ _, t))).
    + by intros [].
    + by intros [].
    + intros. unfold op_meta. by destruct (meta_access _ _ _ _).
  - apply (accessor_contract_of _ (λ t, set_rxn_meta (λ _, t))).
    + by intros [].
    + by intros [].
    + intros. unfold rxn_meta. by destruct (meta_access _ _ _ _).
Qed.

End StoreProps.

(** * Properties of the metadata pipeline *)

Section PipelineProps.
Import Metadata.
Context {Identifier : Type} `{Countable Identifier}.
Context {Key : Type} `{Countable Key}.
Context {Val : Type}.
Context {MolDatBase OpDatBase : Type}.
Context `{!DataUnit Identifier MolDatBase, !DataUnit Identifier OpDatBase}.

Abbreviation KeyOut := (@KeyOutput Key _ _).
Abbreviation Single E := (@MetaPropertyStateSingleProp Val E _ _).
Abbreviation State := (@MetaPropertyState Identifier _ _ Key _ _ Val).
Abbreviation Compositor := (@PropertyCompositor Key _ _ Val MolDatBase OpDatBase).
Abbreviation Rxn := (@ReactionExplicit Key _ _ Val MolDatBase OpDatBase).
Abbreviation MetaD := (gmap Key Val).

(** *** Declared keys *)

(** C3.  What [&] does: on key outputs it never raises, whatever the
    overlap, and returns the partition-wise unions; on compositors it
    returns [None] and raises nothing. *)
Theorem and_never_raises :
  (∀ self other : KeyOut,
     KeyOutput_and self other =
       inr (mkKeyOutput (mol_keys self ∪ mol_keys other)
              (op_keys self ∪ op_keys other)
              (rxn_keys self ∪ rxn_keys other))) ∧
  (∀ self other : Compositor, PropertyCompositor_and self other = Ret None).
Proof.
  split; [|done]. intros self other. unfold KeyOutput_and.
  assert (Hle : ∀ X Y : gset Key, ¬ size X + size Y < size (X ∪ Y)).
  { intros X Y. rewrite size_union_alt.
    assert (size (Y ∖ X) ≤ size Y) by (by apply subseteq_size, subseteq_difference_l).
    lia. }
  repeat case_decide; try done; by edestruct Hle.
Qed.

(** *** Merging two fragments for one key *)

Lemma size_zero_empty `{Countable E} (m : gmap E Val) : size m = 0 ↔ m = ∅.
Proof. apply map_size_empty_iff. Qed.

(** The merged values, handle by handle. *)
Lemma single_or_lookup `{Countable E} (self other : Single E) (h : E) :
  data (single_or self other) !! h =
    match data self !! h, data other !! h with
    | Some a, Some b => Some (resolver self a b)
    | Some a, None => Some a
    | None, Some b => Some b
    | None, None => None
    end.
Proof.
  unfold single_or.
  destruct (decide (size (data self) = 0)) as [He|_].
  { apply size_zero_empty in He. rewrite He, lookup_empty.
    by destruct (data other !! h). }
  destruct (decide (size (data other) = 0)) as [He|_].
  { apply size_zero_empty in He. rewrite He, lookup_empty. simpl.
    by destruct (data self !! h). }
  destruct (decide (size (dom (data self) ∩ dom (data other)) = 0)) as [He|_]; simpl.
  - apply size_empty_iff in He.
    rewrite lookup_union.
    destruct (data self !! h) as [a|] eqn:Ha, (data other !! h) as [b|] eqn:Hb;
      try done.
    exfalso. assert (h ∈ dom (data self) ∩ dom (data other)) as Hin.
    { apply elem_of_intersection. split; apply elem_of_dom; eauto. }
    rewrite He in Hin. by apply elem_of_empty in Hin.
  - rewrite !lookup_union, lookup_intersection_with.
    by destruct (data self !! h), (data other !! h).
Qed.

(** C5, as the code has it.  The merge of two fragments for one key
    carries the right side's resolver in every case; it is the right side
    itself when the left side's map is empty, and has the left side's map
    when the right side's map is empty; and its map sends a handle of both
    sides to the left side's resolver applied to the left and the right
    value, and a handle of one side only to that side's value. *)
Theorem single_or_spec `{Countable E} (self other : Single E) :
  resolver (single_or self other) = resolver other ∧
  (data self = ∅ → single_or self other = other) ∧
  (data other = ∅ → data (single_or self other) = data self) ∧
  (∀ h a b, data self !! h = Some a → data other !! h = Some b →
     data (single_or self other) !! h = Some (resolver self a b)) ∧
  (∀ h a, data self !! h = Some a → data other !! h = None →
     data (single_or self other) !! h = Some a) ∧
  (∀ h b, data self !! h = None → data other !! h = Some b →
     data (single_or self other) !! h = Some b) ∧
  (∀ h, data self !! h = None → data other !! h = None →
     data (single_or self other) !! h = None).
Proof.
  split; [|split; [|split]].
  - unfold single_or. by repeat case_decide.
  - intros He. unfold single_or. rewrite decide_True; [done|].
    by apply size_zero_empty.
  - intros He. apply map_eq. intros h. rewrite single_or_lookup, He, lookup_empty.
    by destruct (data self !! h).
  - repeat split; intros; rewrite single_or_lookup;
      repeat match goal with Hx : _ !! _ = _ |- _ => rewrite Hx; clear Hx end; done.
Qed.

(** *** The inversion loops *)

Lemma invert_set_empty `{Countable E} (entity_id : E) (meta_key : Key)
    (key_val : Val) :
  invert_set entity_id meta_key key_val ∅ = (Raise KeyError, ∅).
Proof.
  unfold invert_set, mbind, St_mbind, st_bind, st_get, lift, st_raise.
  by rewrite lookup_empty.
Qed.

(** The loop over the values of one key, from the empty dictionary: it
    ends at once on no value and raises on the first value. *)
Lemma invert_values_empty `{Countable E} (meta_key : Key) (single : Single E) :
  for_ (map_to_list (data single)) (λ '(entity_id, key_val),
      invert_set entity_id meta_key key_val) ∅ =
    (if decide (data single = ∅) then Ret tt else Raise KeyError, ∅).
Proof.
  destruct (map_to_list (data single)) as [|[e v] l] eqn:Hl.
  - apply map_to_list_empty_iff in Hl. by rewrite decide_True.
  - rewrite decide_False.
    + simpl. unfold mbind, St_mbind, st_bind. by rewrite invert_set_empty.
    + intros He. apply map_to_list_empty_iff in He. congruence.
Qed.

Lemma invert_keys_empty `{Countable E} (l : list (Key * Single E)) :
  for_ l (λ '(meta_key, single),
      for_ (map_to_list (data single)) (λ '(entity_id, key_val),
        invert_set entity_id meta_key key_val)) ∅ =
    (if decide (Forall (λ ks, data ks.2 = ∅) l) then Ret tt else Raise KeyError, ∅).
Proof.
  induction l as [|[k single] l IH].
  - by rewrite decide_True.
  - simpl. unfold mbind, St_mbind, st_bind. rewrite invert_values_empty.
    destruct (decide (data single = ∅)) as [He|Hne].
    + rewrite IH. destruct (decide (Forall _ l)) as [Hl|Hl].
      * rewrite decide_True; [done|]. by constructor.
      * rewrite decide_False; [done|]. by inversion 1.
    + rewrite decide_False; [done|]. by inversion 1.
Qed.

(** An inversion loop gives the empty dictionary when the partition holds
    no value, and raises [KeyError] when it holds one. *)
Lemma invert_cases `{Countable E} (info : gmap Key (Single E)) :
  (has_entry info ∧ invert info = Raise KeyError) ∨
  (¬ has_entry info ∧ invert info = Ret ∅).
Proof.
  unfold invert. rewrite invert_keys_empty.
  destruct (decide (Forall _ _)) as [Hall|Hex].
  - right. split; [|done]. intros (k & single & e & v & Hk & He).
    apply elem_of_map_to_list in Hk. rewrite Forall_forall in Hall.
    specialize (Hall _ Hk). simpl in Hall. rewrite Hall in He.
    by rewrite lookup_empty in He.
  - left. split; [|done]. apply not_Forall_Exists in Hex; [|apply _].
    apply Exists_exists in Hex as ([k single] & Hk & Hne). simpl in Hne.
    apply elem_of_map_to_list in Hk.
    destruct (map_choose _ Hne) as (e & v & He). by exists k, single, e, v.
Qed.

(** *** The projection onto the reaction stream *)

(** The projection yields no item: an inversion loop raises, or the three
    inverted dictionaries are empty and the first reaction's operator is
    looked up in vain. *)
Lemma metalib_to_rxn_meta_yields_nothing (metalib : State) (rxns : list (Rxn * bool)) :
  (metalib_to_rxn_meta metalib rxns).1 = [].
Proof.
  unfold metalib_to_rxn_meta.
  destruct (invert_cases (mol_info metalib)) as [[_ ->]|[_ ->]]; [done|].
  destruct (invert_cases (op_info metalib)) as [[_ ->]|[_ ->]]; [done|].
  destruct (invert_cases (rxn_info metalib)) as [[_ ->]|[_ ->]]; [done|].
  destruct rxns as [|rxn rxns]; [done|].
  simpl. unfold project, getitem. simpl. by rewrite lookup_empty.
Qed.


Section Steps.
Context (logreduce : (State → State → State) → list State → outcome State).

(** C4.  When a partition of the metadata state holds a value,
    [metalib_to_rxn_meta] yields nothing and raises [KeyError]; so does
    an annotation step whose reduced state is that one. *)
Theorem annotation_raises_KeyError (metalib : State)
    (rxns : list (Rxn * bool)) (_prop : Compositor) :
  has_entry (mol_info metalib) ∨ has_entry (op_info metalib) ∨
    has_entry (rxn_info metalib) →
  metalib_to_rxn_meta metalib rxns = ([], Some KeyError) ∧
  (logreduce state_or (meta_lib_generator _prop rxns) = Ret metalib →
   execute logreduce (RxnAnalysisStepProp _prop) (rxns, None) =
     ([], Some KeyError)).
Proof.
  intros Hentry.
  assert (Hraise : metalib_to_rxn_meta metalib rxns = ([], Some KeyError)).
  { unfold metalib_to_rxn_meta.
    destruct (invert_cases (mol_info metalib)) as [[_ ->]|[Hm ->]]; [done|].
    destruct (invert_cases (op_info metalib)) as [[_ ->]|[Ho ->]]; [done|].
    destruct (invert_cases (rxn_info metalib)) as [[_ ->]|[Hr ->]]; [done|].
    tauto. }
  split; [done|]. intros Hred. simpl. unfold execute_prop. by rewrite Hred.
Qed.

(** An annotation step yields nothing for a stream that is not empty. *)
Lemma metalib_to_rxn_meta_nonempty (metalib : State) (rxn : Rxn * bool)
    (rxns : list (Rxn * bool)) :
  metalib_to_rxn_meta metalib (rxn :: rxns) = ([], Some KeyError).
Proof.
  unfold metalib_to_rxn_meta.
  destruct (invert_cases (mol_info metalib)) as [[_ ->]|[_ ->]]; [done|].
  destruct (invert_cases (op_info metalib)) as [[_ ->]|[_ ->]]; [done|].
  destruct (invert_cases (rxn_info metalib)) as [[_ ->]|[_ ->]]; [done|].
  simpl. unfold project, getitem. simpl. by rewrite lookup_empty.
Qed.

(** The filter step keeps every item, in order, and a flag is true after
    it only if it was true before it. *)
Lemma execute_filter_keeps (_arg : Rxn → bool) (rxns : list (Rxn * bool))
    (err : option PyError) :
  (execute_filter _arg (rxns, err)).2 = err ∧
  (execute_filter _arg (rxns, err)).1.*1 = rxns.*1 ∧
  Forall2 (λ old new, new.2 = true → old.2 = true ∧ _arg old.1 = true)
    rxns (execute_filter _arg (rxns, err)).1.
Proof.
  unfold execute_filter. simpl. split; [done|]. split.
  - rewrite <- list_fmap_compose. apply list_fmap_ext.
    intros i [rxn flag] _. simpl. by destruct (negb flag || negb (_arg rxn)).
  - apply Forall2_fmap_r, Forall_Forall2_diag, Forall_forall.
    intros [rxn flag] _. simpl.
    destruct flag, (_arg rxn); simpl; done.
Qed.

(** The fragments an annotation step reduces after a filter step are the
    compositor's results on the reactions that were passing and that the
    filter accepts, in order. *)
Lemma annotate_reduces_passing_only (_arg : Rxn → bool) (_prop : Compositor)
    (rxns : list (Rxn * bool)) :
  meta_lib_generator _prop (execute_filter _arg (rxns, None)).1 =
    compositor_call _prop <$>
      (filter (λ rxn, rxn.2 = true ∧ _arg rxn.1 = true) rxns).*1.
Proof.
  unfold meta_lib_generator, execute_filter. simpl.
  induction rxns as [|[rxn flag] rxns IH]; [done|].
  rewrite fmap_cons. simpl.
  destruct flag, (_arg rxn) eqn:Harg; simpl.
  - rewrite !filter_cons_True by (by simpl). simpl. f_equal. exact IH.
  - rewrite !filter_cons_False by (simpl; intros; intuition congruence). exact IH.
  - rewrite !filter_cons_False by (simpl; intros; intuition congruence). exact IH.
  - rewrite !filter_cons_False by (simpl; intros; intuition congruence). exact IH.
Qed.

(** C9.  What the pipeline [filter_step >> annotate_step] does on a stream
    that is not empty: it yields no item and ends with an exception, the one
    [logreduce] raised on the fragments of the passing reactions or else
    [KeyError]. *)
Theorem filter_then_annotate_yields_nothing (_arg : Rxn → bool)
    (_prop : Compositor) (rxn : Rxn * bool) (rxns : list (Rxn * bool)) :
  execute logreduce
    (rshift (RxnAnalysisStepFilter _arg) (RxnAnalysisStepProp _prop))
    (rxn :: rxns, None) =
  ([], Some match logreduce state_or
                    (meta_lib_generator _prop
                       (execute_filter _arg (rxn :: rxns, None)).1) with
            | Ret _ => KeyError
            | Raise e => e
            end).
Proof.
  simpl. unfold execute_filter, execute_prop. simpl.
  destruct (logreduce _ _) as [metalib|e]; [|done].
  apply metalib_to_rxn_meta_nonempty.
Qed.

End Steps.

End PipelineProps.

(** * The properties at concrete inputs *)

Section Concrete.
Import Example.

(** The calls m1, m2, m3, O leave the table [[[m1, m2], [m2, m3]]]; the
    calls O, m1, m2, m3 register the same entities and leave the table
    [[[], []]]. *)
Example compat_table_scenario :
  Network._compat_table (Network.after_all mols_first) = [[[0; 1]; [1; 2]]] ∧
  Network._compat_table (Network.after_all op_first) = [[[]; []]] ∧
  Network._mol_list (Network.after_all op_first) =
    Network._mol_list (Network.after_all mols_first).
Proof. vm_compute. done. Qed.

(** On the store holding O, [add_mol(m1)] registers m1 and raises; O
    accepts m1 in slot 0, and the table holds no handle. *)
Lemma add_mol_leaves_table_witness :
  Network.add_mol m1 None op_only =
    (Raise NameError, Network.mol_registered op_only m1 None) ∧
  Network._compat_table (Network.mol_registered op_only m1 None) = [[[]; []]] ∧
  compat O m1 0 = true.
Proof.
  split; [|split].
  - apply (add_mol_leaves_table op_only m1 None). vm_compute. reflexivity.
  - vm_compute. reflexivity.
  - vm_compute. reflexivity.
Defined.


(** On the empty store, [add_rxn(5, [7], [9])] returns handle 0 and the
    reaction is recorded. *)
Lemma add_rxn_unchecked_witness :
  Network.add_rxn 5 [7] [9] None empty =
    (Ret 0, Network.rxn_appended empty 5 [7] [9] None).
Proof. apply (add_rxn_unchecked empty 5 [7] [9] None); done. Defined.


Lemma meta_None_is_a_read_witness :
  Network.mol_meta 0 "mass" Network.PyNone weighed =
    (Ret (Network.PyObj 1%Z), weighed).
Proof.
  destruct (proj1 (proj1 meta_None_is_a_read weighed 0%Z "mass"))
    as (r & -> & _ & Hr).
  f_equal. rewrite (Hr 0 {["mass" := Network.PyObj 1%Z]}); reflexivity.
Defined.

(** [KeyOutput({"mass"}, {}, {}) & KeyOutput({"mass"}, {}, {})] returns a
    key output. *)
Example and_of_two_mass_compositors :
  Metadata.KeyOutput_and
    (Metadata.keys (Metadata.MolPropertyCompositor (OpDatBase:=Op) mass))
    (Metadata.keys (Metadata.MolPropertyCompositor (OpDatBase:=Op) mass)) =
  inr (Metadata.mkKeyOutput {["mass"]} ∅ ∅).
Proof. vm_compute. reflexivity. Qed.

Lemma single_or_spec_witness :
  Metadata.data (Metadata.single_or left right) = Metadata.data left ∧
  Metadata.data (Metadata.single_or left right) !! "m1" = Some 1%Z.
Proof.
  split.
  - apply (proj1 (proj2 (proj2 (single_or_spec left right)))). reflexivity.
  - apply (proj1 (proj2 (proj2 (proj2 (proj2 (single_or_spec left right)))))).
    + reflexivity.
    + reflexivity.
Defined.

(** C5 fails on the code: merging [left], which holds a value, with
    [right], which holds none, gives [left]'s values under [right]'s
    resolver. *)
Lemma empty_side_resolver_kept :
  ¬ (∀ self other : @Metadata.MetaPropertyStateSingleProp Z string _ _,
       Metadata.data self ≠ ∅ → Metadata.data other = ∅ →
       Metadata.single_or self other = self).
Proof.
  intros Hclaim. specialize (Hclaim left right).
  apply (f_equal (λ x, Metadata.resolver x 1%Z 1%Z)) in Hclaim.
  - vm_compute in Hclaim. discriminate.
  - intros He. apply (f_equal (λ m, m !! "m1")) in He. vm_compute in He. discriminate.
  - reflexivity.
Qed.

Lemma annotation_raises_KeyError_witness :
  Metadata.execute logreduce
    (Metadata.RxnAnalysisStepProp (Metadata.MolPropertyCompositor mass))
    ([(R1, true)], None) = ([], Some KeyError).
Proof.
  assert (Hentry : Metadata.has_entry (Metadata.mol_info
            (Metadata.compositor_call (Metadata.MolPropertyCompositor mass) R1))).
  { exists "mass". eexists. exists "m1", 1%Z. split; vm_compute; reflexivity. }
  apply (proj2 (annotation_raises_KeyError logreduce
           (Metadata.compositor_call (Metadata.MolPropertyCompositor mass) R1)
           [(R1, true)] (Metadata.MolPropertyCompositor mass)
           (or_introl Hentry))).
  reflexivity.
Defined.

(** The pipeline [filter >> annotate] on R1 (kept) and R2 (rejected). *)
Example filter_then_annotate_scenario :
  Metadata.execute logreduce
    (Metadata.rshift
       (Metadata.RxnAnalysisStepFilter produces_m3)
       (Metadata.RxnAnalysisStepProp (Metadata.MolPropertyCompositor mass)))
    ([(R1, true); (R2, true)], None) = ([], Some KeyError).
Proof. vm_compute. reflexivity. Qed.

End Concrete.


(** * Further properties of the entity store *)

Section StoreInvariants.
Import Network.
Context {Identifier : Type} `{Countable Identifier}.
Context {Key : Type} `{Countable Key}.
Context {Val : Type}.
Context {MolDatBase OpDatBase : Type}.
Context `{!DataUnit Identifier MolDatBase, !DataUnit Identifier OpDatBase}.
Context `{!OpDat MolDatBase OpDatBase}.

Abbreviation Net := (@ChemNetworkBin Identifier _ _ Key _ _ Val MolDatBase OpDatBase).
Abbreviation Call' := (@Call Key _ _ Val MolDatBase OpDatBase).
Abbreviation PyVal' := (@PyVal Val).
Abbreviation Meta' := (gmap Key PyVal').

(** *** The invariant of the store *)

Lemma registry_ok_register {A K} `{Countable K} (key : A → K) (l : list A)
    (m : gmap K nat) (x : A) :
  registry_ok key l m → m !! key x = None →
  registry_ok key (l ++ [x]) (<[key x := length l]> m).
Proof.
  intros Hok Hnew k i. destruct (decide (k = key x)) as [->|Hk].
  - rewrite lookup_insert_eq. split.
    + intros [= <-]. exists x. split; [|done]. by apply list_lookup_middle.
    + intros (y & Hy & Hkey). f_equal.
      apply lookup_app_Some in Hy as [Hy|[Hlen Hy]].
      * assert (m !! key x = Some i) as Hm by (apply Hok; eauto). congruence.
      * apply list_lookup_singleton_Some in Hy as [Hi _]. lia.
  - rewrite lookup_insert_ne by done. rewrite (Hok k i). split.
    + intros (y & Hy & Hkey). exists y. split; [|done]. by apply lookup_app_l_Some.
    + intros (y & Hy & Hkey). exists y. split; [|done].
      apply lookup_app_Some in Hy as [Hy|[Hlen Hy]]; [done|].
      apply list_lookup_singleton_Some in Hy as [_ ->]. congruence.
Qed.

Lemma py_index_0 (index : Z) : py_index 0 index = None.
Proof. unfold py_index. repeat case_decide; [lia|lia|done]. Qed.

Lemma py_index_Some (n : nat) (index : Z) (i : nat) :
  py_index n index = Some i → i < n.
Proof. unfold py_index. repeat case_decide; intros [= <-]; lia. Qed.

Lemma py_index_of_nat (n i : nat) :
  py_index n (Z.of_nat i) = if decide (i < n) then Some i else None.
Proof.
  unfold py_index. repeat case_decide; try lia; try done.
  by rewrite Nat2Z.id.
Qed.

Lemma meta_access_length (table : list Meta') (index : Z) (key : Key)
    (value : PyVal') :
  length (meta_access table index key value).2 = length table.
Proof.
  unfold meta_access. destruct value as [|v].
  - destruct (py_index _ _ ≫= _) as [d|]; [|done]. by destruct (d !! key).
  - destruct (py_index _ _) as [i|]; [|done].
    destruct (table !! i); [|done]. simpl. by rewrite length_insert.
Qed.

Lemma registry_ok_nil {A K} `{Countable K} (key : A → K) :
  registry_ok key [] (∅ : gmap K nat).
Proof.
  intros k i. rewrite lookup_empty. split; [done|].
  intros (x & Hx & _). by rewrite lookup_nil in Hx.
Qed.

Lemma store_ok_init : store_ok (init : Net).
Proof.
  unfold store_ok. split_and!; try done; try apply registry_ok_nil. constructor.
Qed.

(** Registering one more molecule leaves the rows as they are. *)
Lemma table_frozen_more (ops : list OpDatBase) (table : list (list (list nat)))
    (mols : list MolDatBase) (mol : MolDatBase) :
  Forall2 (λ op row, ∃ n, n ≤ length mols ∧ row = row_of op (take n mols)) ops table →
  Forall2 (λ op row, ∃ n, n ≤ length (mols ++ [mol]) ∧
                          row = row_of op (take n (mols ++ [mol]))) ops table.
Proof.
  intros Hall. eapply Forall2_impl; [exact Hall|].
  intros op row (n & Hn & ->). exists n.
  rewrite length_app, take_app_le by done. split; [lia|done].
Qed.

Lemma after_store_ok (c : Call') (s : Net) : store_ok s → store_ok (after c s).
Proof.
  intros (Htab & Hmol & Hop & Hrxn & Hmm & Hom & Hrm).
  destruct c as [mol meta|op meta|op rs ps meta|index key value|index key value
                |index key value]; simpl.
  - destruct (_mol_map s !! uid mol) as [h|] eqn:Hm.
    + by rewrite (add_mol_known _ _ _ _ Hm).
    + rewrite (add_mol_new _ _ _ Hm). unfold store_ok, table_frozen; simpl.
      split_and!; try done.
      * by apply table_frozen_more.
      * by apply registry_ok_register.
      * rewrite !length_app. simpl. lia.
  - destruct (_op_map s !! uid op) as [h|] eqn:Hm.
    + by rewrite (add_op_known _ _ _ _ Hm).
    + rewrite (add_op_new _ _ _ Hm). unfold store_ok, table_frozen; simpl.
      split_and!; try done.
      * apply Forall2_app; [done|]. constructor; [|constructor].
        exists (length (_mol_list s)). split; [done|]. by rewrite firstn_all.
      * by apply registry_ok_register.
      * rewrite !length_app. simpl. lia.
  - destruct (_rxn_map s !! mkReaction op rs ps) as [h|] eqn:Hm.
    + by rewrite (add_rxn_known _ _ _ _ _ _ Hm).
    + rewrite (add_rxn_new _ _ _ _ _ Hm).
      destruct rs as [|r rs]; [done|]. destruct ps as [|p ps]; [done|].
      unfold store_ok, table_frozen; simpl.
      split_and!; try done.
      * by apply (registry_ok_register (λ r : Reaction, r)).
      * rewrite !length_app. simpl. lia.
  - unfold mol_meta.
    pose proof (meta_access_length (_mol_meta s) index key value) as Hlen.
    destruct (meta_access _ _ _ _) as [r t]. simpl in *.
    unfold store_ok, table_frozen. destruct s; simpl in *.
    split_and!; try done. congruence.
  - unfold op_meta.
    pose proof (meta_access_length (_op_meta s) index key value) as Hlen.
    destruct (meta_access _ _ _ _) as [r t]. simpl in *.
    unfold store_ok, table_frozen. destruct s; simpl in *.
    split_and!; try done. congruence.
  - unfold rxn_meta.
    pose proof (meta_access_length (_rxn_meta s) index key value) as Hlen.
    destruct (meta_access _ _ _ _) as [r t]. simpl in *.
    unfold store_ok, table_frozen. destruct s; simpl in *.
    split_and!; try done. subst. by destruct t.
Qed.

Lemma after_all_snoc (cs : list Call') (c : Call') :
  after_all (cs ++ [c]) = after c (after_all cs).
Proof. unfold after_all. by rewrite foldl_app. Qed.

Lemma after_all_store_ok (cs : list Call') : store_ok (after_all cs).
Proof.
  induction cs as [|c cs IH] using rev_ind; [apply store_ok_init|].
  rewrite after_all_snoc. by apply after_store_ok.
Qed.

(** *** Identities and handles *)

(** X1.  On every store built from the empty one by calls of the store's
    methods, whether the calls returned or raised, the identity maps and the
    entity lists agree, for molecules and for operators: an identity is
    mapped to handle [h] exactly when the entity at [h] has that identity.
    So no two registered molecules, and no two registered operators, share
    an identity. *)
Theorem identity_maps_agree (cs : list Call') (u : Identifier) (h : nat) :
  (_mol_map (after_all cs) !! u = Some h ↔
   ∃ mol, _mol_list (after_all cs) !! h = Some mol ∧ uid mol = u) ∧
  (_op_map (after_all cs) !! u = Some h ↔
   ∃ op, _op_list (after_all cs) !! h = Some op ∧ uid op = u).
Proof.
  destruct (after_all_store_ok cs) as (_ & Hmol & Hop & _).
  split; [apply Hmol|apply Hop].
Qed.

(** X2.  On every such store a reaction is mapped to handle [h] exactly when
    the reaction at handle [h] is that reaction. *)
Theorem reaction_map_agrees (cs : list Call') (rxn : Reaction) (h : nat) :
  _rxn_map (after_all cs) !! rxn = Some h ↔ _rxn_list (after_all cs) !! h = Some rxn.
Proof.
  destruct (after_all_store_ok cs) as (_ & _ & _ & Hrxn & _).
  rewrite (Hrxn rxn h). split; [by intros (x & -> & ->)|]. intros Hx. by exists rxn.
Qed.

(** *** Handles are stable *)

(** X3.  No call of a store method, whether it returns or raises and
    whatever the store, removes or renumbers an entity: each entity list
    after the call extends the list before it, and each identity map after
    the call contains the map before it. *)
Theorem handles_stable (c : Call') (s : Net) :
  _mol_list s `prefix_of` _mol_list (after c s) ∧
  _op_list s `prefix_of` _op_list (after c s) ∧
  _rxn_list s `prefix_of` _rxn_list (after c s) ∧
  _mol_map s ⊆ _mol_map (after c s) ∧
  _op_map s ⊆ _op_map (after c s) ∧
  _rxn_map s ⊆ _rxn_map (after c s).
Proof.
  destruct c as [mol meta|op meta|op rs ps meta|index key value|index key value
                |index key value]; simpl.
  - destruct (_mol_map s !! uid mol) as [h|] eqn:Hm.
    + by rewrite (add_mol_known _ _ _ _ Hm).
    + rewrite (add_mol_new _ _ _ Hm). simpl. split_and!; try done.
      * by apply prefix_app_r.
      * by apply insert_subseteq.
  - destruct (_op_map s !! uid op) as [h|] eqn:Hm.
    + by rewrite (add_op_known _ _ _ _ Hm).
    + rewrite (add_op_new _ _ _ Hm). simpl. split_and!; try done.
      * by apply prefix_app_r.
      * by apply insert_subseteq.
  - destruct (_rxn_map s !! mkReaction op rs ps) as [h|] eqn:Hm.
    + by rewrite (add_rxn_known _ _ _ _ _ _ Hm).
    + rewrite (add_rxn_new _ _ _ _ _ Hm).
      destruct rs as [|r rs]; [done|]. destruct ps as [|p ps]; [done|].
      simpl. split_and!; try done.
      * by apply prefix_app_r.
      * by apply insert_subseteq.
  - unfold mol_meta. by destruct (meta_access _ _ _ _), s.
  - unfold op_meta. by destruct (meta_access _ _ _ _), s.
  - unfold rxn_meta. by destruct (meta_access _ _ _ _), s.
Qed.

(** *** Insertion *)

(** X4.  On any store, [add_mol] of a molecule that is not registered
    raises [NameError], and the molecule is registered by then: the same call
    again returns its handle, the number of molecules registered before the
    first call, and changes nothing.  [add_op] returns on any store, and the
    handle it returns is the one its identity map holds for the operator. *)
Theorem insertion_after_raise (s : Net) :
  (∀ mol meta meta', _mol_map s !! uid mol = None →
     (add_mol mol meta s).1 = Raise NameError ∧
     add_mol mol meta' (add_mol mol meta s).2 =
       (Ret (length (_mol_list s)), (add_mol mol meta s).2)) ∧
  (∀ op meta, ∃ h s',
     add_op op meta s = (Ret h, s') ∧ _op_map s' !! uid op = Some h).
Proof.
  split.
  - intros mol meta meta' Hnew. rewrite (add_mol_new _ _ _ Hnew). split; [done|].
    apply add_mol_known. simpl. by apply lookup_insert_eq.
  - intros op meta. destruct (_op_map s !! uid op) as [h|] eqn:Hm.
    + rewrite (add_op_known _ _ _ _ Hm). eauto.
    + rewrite (add_op_new _ _ _ Hm). do 2 eexists. split; [done|].
      simpl. by apply lookup_insert_eq.
Qed.

(** *** Reading the compatibility table *)

Lemma row_of_sound (op : OpDatBase) (mols : list MolDatBase) (n slot m : nat)
    (l : list nat) :
  row_of op (take n mols) !! slot = Some l → m ∈ l →
  ∃ mol, mols !! m = Some mol ∧ compat op mol slot = true.
Proof.
  unfold row_of. rewrite list_lookup_fmap.
  destruct (seq 0 (op_len op) !! slot) as [a|] eqn:Ha; [|done].
  apply lookup_seq in Ha as [-> _]. simpl. intros [= <-] Hin.
  apply elem_of_compat_handles in Hin as (mol & Hmol & Hc).
  exists mol. split; [|done]. by apply lookup_take_Some in Hmol as [Hmol _].
Qed.

(** X5.  On every store built from the empty one by calls of the store's
    methods, [compat_table(i)] for the handle of a registered operator
    returns the row the operator was given when it was added: one list per
    slot, holding the accepted molecules among the first [n] registered
    molecules, for some [n]; every handle in it is the handle of a registered
    molecule that the operator accepts in that slot.  For an index past the
    last operator it raises [IndexError]. *)
Theorem compat_table_row (cs : list Call') (i : nat) :
  (∀ op, _op_list (after_all cs) !! i = Some op →
     ∃ n, n ≤ length (_mol_list (after_all cs)) ∧
       compat_table (Z.of_nat i) (after_all cs) =
         (Ret (row_of op (take n (_mol_list (after_all cs)))), after_all cs) ∧
       ∀ slot l m,
         row_of op (take n (_mol_list (after_all cs))) !! slot = Some l → m ∈ l →
         ∃ mol, _mol_list (after_all cs) !! m = Some mol ∧ compat op mol slot = true) ∧
  (length (_op_list (after_all cs)) ≤ i →
     compat_table (Z.of_nat i) (after_all cs) = (Raise IndexError, after_all cs)).
Proof.
  destruct (after_all_store_ok cs) as (Htab & _). unfold table_frozen in Htab.
  pose proof (Forall2_length _ _ _ Htab) as Hlen.
  unfold compat_table, mbind, St_mbind, st_bind, st_get, lift, st_ret, st_raise.
  rewrite py_index_of_nat. split.
  - intros op Hop.
    destruct (Forall2_lookup_l _ _ _ _ _ Htab Hop) as (row & Hrow & n & Hn & ->).
    exists n. split; [done|]. split.
    + rewrite decide_True by (by eapply lookup_lt_Some). simpl. by rewrite Hrow.
    + intros slot l m. apply row_of_sound.
  - intros Hi. by rewrite decide_False by lia.
Qed.

(** *** Where metadata given at insertion is kept *)

Lemma meta_access_read_nat (table : list Meta') (i : nat) (key : Key) :
  meta_access table (Z.of_nat i) key PyNone =
    (match table !! i with
     | None => Raise IndexError
     | Some d => match d !! key with
                 | Some v => Ret v
                 | None => Raise KeyError
                 end
     end, table).
Proof.
  unfold meta_access. rewrite py_index_of_nat. case_decide as Hi; simpl.
  - destruct (table !! i) as [d|]; [|done]. by destruct (d !! key).
  - by rewrite lookup_ge_None_2 by lia.
Qed.

(** X6.  On every store built from the empty one by calls of the store's
    methods, the metadata given with a molecule that is not registered is
    kept although [add_mol] raises: under the index of the new molecule, the
    number of molecules registered before, [mol_meta] reads the value given
    for a key, and raises [KeyError] for a key that was not given (for every
    key when no metadata was given). *)
Theorem add_mol_meta_kept (cs : list Call') (mol : MolDatBase)
    (meta : option Meta') (key : Key) :
  _mol_map (after_all cs) !! uid mol = None →
  mol_meta (Z.of_nat (length (_mol_list (after_all cs)))) key PyNone
      (add_mol mol meta (after_all cs)).2 =
    (match new_meta meta !! key with
     | Some v => Ret v
     | None => Raise KeyError
     end, (add_mol mol meta (after_all cs)).2).
Proof.
  intros Hnew. destruct (after_all_store_ok cs) as (_ & _ & _ & _ & Hmm & _).
  rewrite (add_mol_new _ _ _ Hnew).
  unfold mol_meta, mol_registered. cbn [_mol_meta snd].
  rewrite meta_access_read_nat, <- Hmm.
  rewrite list_lookup_middle by done. by destruct (after_all cs).
Qed.

(** X7.  On every store built from the empty one by calls of the store's
    methods the list of reaction metadata is empty: [rxn_meta] raises
    [IndexError] for every index, key and value, and leaves the store as it
    is. *)
Theorem rxn_meta_raises (cs : list Call') (index : Z) (key : Key)
    (value : PyVal') :
  rxn_meta index key value (after_all cs) = (Raise IndexError, after_all cs).
Proof.
  destruct (after_all_store_ok cs) as (_ & _ & _ & _ & _ & _ & Hrm).
  unfold rxn_meta, meta_access. rewrite Hrm. simpl. rewrite py_index_0. simpl.
  destruct value; rewrite <- Hrm; by destruct (after_all cs).
Qed.

(** X8.  On every such store the metadata given with a new reaction goes to
    the operators' metadata list: after [add_rxn] returned handle [h] for a
    new reaction, [op_meta] reads it at index (number of operators + [h]). *)
Theorem add_rxn_meta_in_op_meta (cs : list Call') (op : nat) (rs ps : list nat)
    (meta : option Meta') (h : nat) (s' : Net) (key : Key) :
  _rxn_map (after_all cs) !! mkReaction op rs ps = None →
  add_rxn op rs ps meta (after_all cs) = (Ret h, s') →
  op_meta (Z.of_nat (length (_op_list (after_all cs)) + h)) key PyNone s' =
    (match new_meta meta !! key with
     | Some v => Ret v
     | None => Raise KeyError
     end, s').
Proof.
  intros Hnew. destruct (after_all_store_ok cs) as (_ & _ & _ & _ & _ & Hom & _).
  rewrite (add_rxn_new _ _ _ _ _ Hnew).
  destruct rs as [|r rs]; [done|]. destruct ps as [|p ps]; [done|].
  intros [= <- <-]. unfold op_meta, rxn_appended. cbn [_op_meta].
  rewrite meta_access_read_nat, <- Hom.
  rewrite list_lookup_middle by done. by destruct (after_all cs).
Qed.

(** *** Reactions without reactants or products *)

(** X9.  [add_rxn] for a reaction that is not registered and has no
    reactant or no product raises [ValueError] and leaves the store as it
    is. *)
Theorem add_rxn_empty_side (s : Net) (op : nat) (rs ps : list nat) meta :
  _rxn_map s !! mkReaction op rs ps = None → rs = [] ∨ ps = [] →
  add_rxn op rs ps meta s = (Raise ValueError, s).
Proof.
  intros Hnew Hempty. rewrite (add_rxn_new _ _ _ _ _ Hnew).
  destruct Hempty as [-> | ->]; [done|]. by destruct rs.
Qed.

(** *** Writing and reading metadata *)

Lemma meta_access_round_trip (table : list Meta') (index : Z) (key : Key)
    (v : Val) (r : PyVal') :
  (meta_access table index key (PyObj v)).1 = Ret r →
  meta_access (meta_access table index key (PyObj v)).2 index key PyNone =
    (Ret (PyObj v), (meta_access table index key (PyObj v)).2) ∧
  ∀ index' key',
    py_index (length table) index' ≠ py_index (length table) index ∨ key' ≠ key →
    (meta_access (meta_access table index key (PyObj v)).2 index' key' PyNone).1 =
    (meta_access table index' key' PyNone).1.
Proof.
  remember (meta_access table index key (PyObj v)) as w eqn:Hw.
  unfold meta_access in Hw.
  destruct (py_index (length table) index) as [i|] eqn:Hi; [|by subst w].
  destruct (table !! i) as [d|] eqn:Hd; [|by subst w]. subst w. simpl. intros _.
  assert (Hlt : i < length table) by (by eapply lookup_lt_Some).
  split.
  - unfold meta_access. rewrite length_insert, Hi. simpl.
    rewrite list_lookup_insert_eq by done. by rewrite lookup_insert_eq.
  - intros index' key' Hne. unfold meta_access. rewrite length_insert.
    destruct (py_index (length table) index') as [j|] eqn:Hj; simpl; [|done].
    destruct (decide (j = i)) as [->|Hji].
    + rewrite list_lookup_insert_eq by done. rewrite Hd.
      destruct Hne as [Hne|Hne]; [done|]. rewrite lookup_insert_ne by done.
      by destruct (d !! key').
    + rewrite list_lookup_insert_ne by congruence.
      destruct (table !! j) as [dj|]; [|done]. by destruct (dj !! key').
Qed.

Lemma accessor_round_trip_of (meta_of : Net → list Meta')
    (set : list Meta' → Net → Net) (f : Z → Key → PyVal' → St Net PyVal') :
  (∀ s t, meta_of (set t s) = t) →
  (∀ s t t', set t' (set t s) = set t' s) →
  (∀ index key value s,
     f index key value s =
       ((meta_access (meta_of s) index key value).1,
        set (meta_access (meta_of s) index key value).2 s)) →
  accessor_round_trip meta_of f.
Proof.
  intros Hget Hset Hf s s' index key v r. rewrite Hf. intros Heq.
  pose proof (f_equal fst Heq) as Hr. pose proof (f_equal snd Heq) as Hs.
  cbn [fst snd] in Hr, Hs. subst s'. clear Heq.
  destruct (meta_access_round_trip _ _ _ _ _ Hr) as [Hread Hframe].
  split.
  - rewrite Hf, Hget, Hread. cbn [fst snd]. by rewrite Hset.
  - intros index' key' Hne. rewrite !Hf, Hget. cbn [fst snd]. by apply Hframe.
Qed.

(** X10.  For [mol_meta], [op_meta] and [rxn_meta]: after an assignment
    that returned, a read under the same index and key returns the assigned
    object, and a read under another key, or of another entity, answers what
    it answered before the assignment. *)
Theorem meta_write_then_read :
  accessor_round_trip (_mol_meta : Net → _) mol_meta ∧
  accessor_round_trip (_op_meta : Net → _) op_meta ∧
  accessor_round_trip (_rxn_meta : Net → _) rxn_meta.
Proof.
  split; [|split].
  - apply (accessor_round_trip_of _ (λ t, set_mol_meta (λ _, t))).
    + by intros [].
    + by intros [].
    + intros. unfold mol_meta. by destruct (meta_access _ _ _ _).
  - apply (accessor_round_trip_of _ (λ t, set_op_meta (λ _, t))).
    + by intros [].
    + by intros [].
    + intros. unfold op_meta. by destruct (meta_access _ _ _ _).
  - apply (accessor_round_trip_of _ (λ t, set_rxn_meta (λ _, t))).
    + by intros [].
    + by intros [].
    + intros. unfold rxn_meta. by destruct (meta_access _ _ _ _).
Qed.

End StoreInvariants.


(** * Further properties of the metadata pipeline *)

Section MergeProps.
Import Metadata.
Context {Identifier : Type} `{Countable Identifier}.
Context {Key : Type} `{Countable Key}.
Context {Val : Type}.

Abbreviation Single E := (@MetaPropertyStateSingleProp Val E _ _).
Abbreviation State := (@MetaPropertyState Identifier _ _ Key _ _ Val).

(** *** Merging fragments in any grouping and order *)

Lemma single_or_resolver `{Countable E} (self other : Single E) :
  resolver (single_or self other) = resolver other.
Proof. unfold single_or. by repeat case_decide. Qed.

Lemma single_eq `{Countable E} (a b : Single E) :
  data a = data b → resolver a = resolver b → a = b.
Proof. destruct a, b; simpl. by intros -> ->. Qed.

Lemma single_or_grouping `{Countable E} (a b c : Single E) :
  resolver a = resolver b →
  (∀ x y z, resolver a x (resolver a y z) = resolver a (resolver a x y) z) →
  single_or (single_or a b) c = single_or a (single_or b c).
Proof.
  intros Hab Hassoc. apply single_eq.
  - apply map_eq. intros h.
    rewrite !single_or_lookup, !single_or_resolver, <- Hab.
    destruct (data a !! h), (data b !! h), (data c !! h); simpl; try done.
    by rewrite Hassoc.
  - by rewrite !single_or_resolver.
Qed.

(** X11.  Merging three fragments for one key gives the same fragment in
    both groupings, when the first two carry the same resolver and that
    resolver is associative. *)
Theorem single_or_assoc `{Countable E} (a b c : Single E) :
  resolver a = resolver b →
  (∀ x y z, resolver a x (resolver a y z) = resolver a (resolver a x y) z) →
  single_or (single_or a b) c = single_or a (single_or b c).
Proof. apply single_or_grouping. Qed.

(** X12.  Merging two fragments for one key gives the same fragment in both
    orders, when the two carry the same resolver and that resolver is
    commutative. *)
Theorem single_or_comm `{Countable E} (a b : Single E) :
  resolver a = resolver b →
  (∀ x y, resolver a x y = resolver a y x) →
  single_or a b = single_or b a.
Proof.
  intros Hab Hcomm. apply single_eq.
  - apply map_eq. intros h. rewrite !single_or_lookup, <- Hab.
    destruct (data a !! h), (data b !! h); simpl; try done. by rewrite Hcomm.
  - by rewrite !single_or_resolver.
Qed.

(** *** Merging metadata states *)

Lemma info_or_lookup `{Countable E} (self other : gmap Key (Single E)) (k : Key) :
  info_or self other !! k = merged single_or (self !! k) (other !! k).
Proof.
  unfold info_or, merged.
  destruct (decide (size self = 0)) as [He|_].
  { apply map_size_empty_iff in He. rewrite He, lookup_empty.
    by destruct (other !! k). }
  destruct (decide (size other ≠ 0)) as [_|He].
  - destruct (decide (size (dom self ∩ dom other) = 0)) as [He|_].
    + apply size_empty_iff in He. rewrite lookup_union.
      destruct (self !! k) as [a|] eqn:Ha, (other !! k) as [b|] eqn:Hb; try done.
      exfalso. assert (k ∈ dom self ∩ dom other) as Hin.
      { apply elem_of_intersection. split; apply elem_of_dom; eauto. }
      rewrite He in Hin. by apply elem_of_empty in Hin.
    + rewrite !lookup_union, lookup_intersection_with.
      by destruct (self !! k), (other !! k).
  - assert (size other = 0) as He' by (destruct (size other); [done|by destruct He]).
    apply map_size_empty_iff in He'. rewrite He', lookup_empty.
    by destruct (self !! k).
Qed.

(** X13.  The merge of two metadata states is key by key, in each of the
    three partitions separately: a key of both states holds the merge of the
    two fragments, a key of one state holds that state's fragment, and no
    other key appears. *)
Theorem state_or_lookup (self other : State) (k : Key) :
  mol_info (state_or self other) !! k =
    merged single_or (mol_info self !! k) (mol_info other !! k) ∧
  op_info (state_or self other) !! k =
    merged single_or (op_info self !! k) (op_info other !! k) ∧
  rxn_info (state_or self other) !! k =
    merged single_or (rxn_info self !! k) (rxn_info other !! k).
Proof. unfold state_or. simpl. split_and!; apply info_or_lookup. Qed.

Lemma info_or_assoc `{Countable E} (r : Key → Val → Val → Val)
    (a b c : gmap Key (Single E)) :
  resolved_by r a → resolved_by r b →
  (∀ k x y z, r k x (r k y z) = r k (r k x y) z) →
  info_or (info_or a b) c = info_or a (info_or b c).
Proof.
  intros Ha Hb Hassoc. apply map_eq. intros k. rewrite !info_or_lookup.
  specialize (Ha k). specialize (Hb k).
  destruct (a !! k) as [x|], (b !! k) as [y|], (c !! k) as [z|]; simpl; try done.
  f_equal. apply single_or_grouping.
  - by rewrite (Ha x), (Hb y).
  - intros. rewrite (Ha x) by done. apply Hassoc.
Qed.

(** X14.  Merging three metadata states gives the same state in both
    groupings, when in each partition the fragments of the first two states
    carry, key by key, one associative resolver. *)
Theorem state_or_assoc (r_mol r_op r_rxn : Key → Val → Val → Val) (a b c : State) :
  resolved_by r_mol (mol_info a) → resolved_by r_mol (mol_info b) →
  resolved_by r_op (op_info a) → resolved_by r_op (op_info b) →
  resolved_by r_rxn (rxn_info a) → resolved_by r_rxn (rxn_info b) →
  (∀ k x y z, r_mol k x (r_mol k y z) = r_mol k (r_mol k x y) z) →
  (∀ k x y z, r_op k x (r_op k y z) = r_op k (r_op k x y) z) →
  (∀ k x y z, r_rxn k x (r_rxn k y z) = r_rxn k (r_rxn k x y) z) →
  state_or (state_or a b) c = state_or a (state_or b c).
Proof.
  intros. unfold state_or. simpl. f_equal; by eapply info_or_assoc.
Qed.

(** *** Merging metadata dictionaries *)

(** X15.  [_mmd] is associative and [None] is neutral on both sides. *)
Theorem _mmd_monoid (i1 i2 i3 : option (gmap Key Val)) :
  _mmd None i1 = i1 ∧ _mmd i1 None = i1 ∧
  _mmd (_mmd i1 i2) i3 = _mmd i1 (_mmd i2 i3).
Proof.
  split_and!.
  - by destruct i1.
  - by destruct i1.
  - destruct i1, i2, i3; simpl; try done. by rewrite (assoc_L (∪)).
Qed.

(** X28.  Of two dictionaries, [_mmd] keeps under every key of the second
    the second's value, also where the first holds the key, and under the
    other keys of the first the first's value. *)
Theorem _mmd_second_wins (d1 d2 : gmap Key Val) (k : Key) :
  _mmd (Some d1) (Some d2) ≫= (.!! k) =
    match d2 !! k with
    | Some v => Some v
    | None => d1 !! k
    end.
Proof. simpl. rewrite lookup_union. by destruct (d2 !! k), (d1 !! k). Qed.

End MergeProps.


(** * Properties of compositors, steps and updates *)

Section StepProps.
Import Metadata.
Context {Identifier : Type} `{Countable Identifier}.
Context {Key : Type} `{Countable Key}.
Context {Val : Type}.
Context {MolDatBase OpDatBase : Type}.
Context `{!DataUnit Identifier MolDatBase, !DataUnit Identifier OpDatBase}.

Abbreviation State := (@MetaPropertyState Identifier _ _ Key _ _ Val).
Abbreviation Compositor := (@PropertyCompositor Key _ _ Val MolDatBase OpDatBase).
Abbreviation Rxn := (@ReactionExplicit Key _ _ Val MolDatBase OpDatBase).
Abbreviation Packet A := (@DataPacket Key _ _ Val A).

(** *** What a compositor produces *)

(** X16.  A compositor's fragment holds keys of the compositor's declared
    key output only, partition by partition; and no compositor declares or
    produces a reaction key. *)
Theorem compositor_within_declared_keys (c : Compositor) (rxn : Rxn) :
  dom (mol_info (compositor_call c rxn)) ⊆ mol_keys (keys c) ∧
  dom (op_info (compositor_call c rxn)) ⊆ op_keys (keys c) ∧
  rxn_info (compositor_call c rxn) = ∅ ∧
  rxn_keys (keys c) = ∅.
Proof.
  destruct c as [calc|calc|calc|calc|calc]; simpl;
    try destruct (call calc _ None); simpl;
    rewrite ?dom_singleton_L, ?dom_empty_L; split_and!; set_solver.
Qed.

Lemma mol_props_lookup (f : Packet MolDatBase → option Val)
    (mols : list (Packet MolDatBase)) (u : Identifier) :
  (∀ v, mol_props f mols !! u = Some v →
        ∃ mol, mol ∈ mols ∧ uid (item mol) = u ∧ f mol = Some v) ∧
  (mol_props f mols !! u = None ↔
     ∀ mol, mol ∈ mols → uid (item mol) = u → f mol = None).
Proof.
  unfold mol_props. induction mols as [|mol mols IH] using rev_ind.
  - simpl. rewrite lookup_empty. split; [done|]. split; [|done].
    intros _ mol Hin. by apply elem_of_nil in Hin.
  - rewrite foldl_app. simpl. destruct IH as [IHs IHn].
    destruct (f mol) as [c|] eqn:Hc.
    + destruct (decide (uid (item mol) = u)) as [Hu|Hu].
      * rewrite <- Hu, lookup_insert_eq. split.
        -- intros v [= <-]. exists mol. split; [|done].
           apply elem_of_app. right. by apply list_elem_of_singleton.
        -- split; [done|]. intros Hall.
           rewrite (Hall mol) in Hc; [done| |done].
           apply elem_of_app. right. by apply list_elem_of_singleton.
      * rewrite lookup_insert_ne by done. split.
        -- intros v Hv. destruct (IHs v Hv) as (m & Hin & Hm).
           exists m. split; [|done]. apply elem_of_app. by left.
        -- rewrite IHn. split.
           ++ intros Hall m Hin Hm. apply elem_of_app in Hin as [Hin|Hin]; [by apply Hall|].
              apply list_elem_of_singleton in Hin as ->. done.
           ++ intros Hall m Hin Hm. apply Hall; [|done]. apply elem_of_app. by left.
    + split.
      * intros v Hv. destruct (IHs v Hv) as (m & Hin & Hm).
        exists m. split; [|done]. apply elem_of_app. by left.
      * rewrite IHn. split.
        -- intros Hall m Hin Hm. apply elem_of_app in Hin as [Hin|Hin]; [by apply Hall|].
           apply list_elem_of_singleton in Hin as ->. done.
        -- intros Hall m Hin Hm. apply Hall; [|done]. apply elem_of_app. by left.
Qed.

(** X17.  In the fragment of a molecule compositor, the key is the
    calculator's and always present, the resolver is the calculator's, a
    value filed under an identifier is what the calculator returned for a
    reactant or product with that identifier, and an identifier has no value
    exactly when the calculator returned [None] for every reactant and
    product with that identifier. *)
Theorem mol_compositor_fragment (calc : @LocalPropertyCalc Key Val (Packet MolDatBase))
    (rxn : Rxn) (u : Identifier) :
  ∃ single,
    mol_info (compositor_call (MolPropertyCompositor calc) rxn) =
      {[key calc := single]} ∧
    resolver single = calc_resolver calc ∧
    (∀ v, data single !! u = Some v →
          ∃ mol, mol ∈ reactants rxn ++ products rxn ∧ uid (item mol) = u ∧
                 call calc mol None = Some v) ∧
    (data single !! u = None ↔
       ∀ mol, mol ∈ reactants rxn ++ products rxn → uid (item mol) = u →
              call calc mol None = None).
Proof.
  simpl. eexists. split; [done|]. split; [done|]. simpl.
  apply (mol_props_lookup (λ mol, call calc mol None)).
Qed.

(** *** Pipelines *)

Section Pipelines.
Context (logreduce : (State → State → State) → list State → outcome State).

Abbreviation Step := (@RxnAnalysisStep Key _ _ Val MolDatBase OpDatBase).

Lemma execute_filter_flags (_arg : Rxn → bool) (rxns : list (Rxn * bool))
    (err : option PyError) :
  execute_filter _arg (rxns, err) =
    ((λ rxn, (rxn.1, rxn.2 && _arg rxn.1)) <$> rxns, err).
Proof.
  unfold execute_filter. simpl. f_equal. apply list_fmap_ext.
  intros i [rxn flag] _. simpl. by destruct flag, (_arg rxn).
Qed.

Lemma execute_filters (step : Step) (rxns : list (Rxn * bool))
    (err : option PyError) :
  annotates step = false →
  execute logreduce step (rxns, err) =
    ((λ rxn, (rxn.1, rxn.2 && accepted step rxn.1)) <$> rxns, err).
Proof.
  revert rxns. induction step as [step1 IH1 step2 IH2|c|f]; intros rxns; simpl.
  - intros [Ha1 Ha2]%orb_false_elim. rewrite IH1, IH2 by done.
    f_equal. rewrite <- list_fmap_compose. apply list_fmap_ext.
    intros i [rxn flag] _. simpl. by rewrite andb_assoc.
  - done.
  - intros _. apply execute_filter_flags.
Qed.

(** X18.  A pipeline made of filter steps only yields every reaction of its
    input, in order, and then ends as the input ends; the flag of a reaction
    is true after the pipeline exactly when it was true before it and every
    filter of the pipeline accepts the reaction. *)
Theorem filters_keep_every_reaction (step : Step) (rxns : list (Rxn * bool))
    (err : option PyError) :
  annotates step = false →
  execute logreduce step (rxns, err) =
    ((λ rxn, (rxn.1, rxn.2 && accepted step rxn.1)) <$> rxns, err).
Proof. apply execute_filters. Qed.

(** X19.  Pipelines made of filter steps only commute, and running such a
    pipeline twice is running it once. *)
Theorem filters_commute (step1 step2 : Step) (rxns : Stream (Rxn * bool)) :
  annotates step1 = false → annotates step2 = false →
  execute logreduce (rshift step1 step2) rxns =
    execute logreduce (rshift step2 step1) rxns ∧
  execute logreduce (rshift step1 step1) rxns = execute logreduce step1 rxns.
Proof.
  intros Ha1 Ha2. destruct rxns as [rxns err]. simpl.
  rewrite !execute_filters by done. split.
  - f_equal. rewrite <- !list_fmap_compose. apply list_fmap_ext.
    intros i [rxn flag] _. simpl.
    by destruct flag, (accepted step1 rxn), (accepted step2 rxn).
  - f_equal. rewrite <- !list_fmap_compose. apply list_fmap_ext.
    intros i [rxn flag] _. simpl. by destruct flag, (accepted step1 rxn).
Qed.

Lemma execute_ended (step : Step) (e : PyError) :
  execute logreduce step ([], Some e) = ([], Some e).
Proof.
  induction step as [step1 IH1 step2 IH2|c|f]; simpl; [by rewrite IH1, IH2|done..].
Qed.

(** X20.  A pipeline that contains an annotation step yields no item for an
    input stream that is not empty, and ends with an exception. *)
Theorem annotation_yields_nothing (step : Step) (rxn : Rxn * bool)
    (rxns : list (Rxn * bool)) (err : option PyError) :
  annotates step = true →
  ∃ e, execute logreduce step (rxn :: rxns, err) = ([], Some e).
Proof.
  revert rxn rxns err.
  induction step as [step1 IH1 step2 IH2|c|f]; intros rxn rxns err; simpl.
  - destruct (annotates step1) eqn:Ha1; simpl.
    + intros _. destruct (IH1 rxn rxns err eq_refl) as [e ->].
      exists e. apply execute_ended.
    + intros Ha2. rewrite execute_filters by done.
      rewrite fmap_cons. by apply IH2.
  - intros _. unfold execute_prop. destruct err as [e|]; [by exists e|].
    destruct (logreduce _ _) as [metalib|e]; [|by exists e].
    exists KeyError. apply (metalib_to_rxn_meta_nonempty logreduce).
  - done.
Qed.

End Pipelines.

(** *** Metadata updates *)

Section Updates.
Context {ChemNetwork : Type}.

Abbreviation Update :=
  (@MetaUpdate Key _ _ Val MolDatBase OpDatBase ChemNetwork).

(** The updates a [MetaUpdateMultiple] built from [update] is composed of. *)
Lemma MetaUpdate_add_composed (self other : Update) :
  MetaUpdate_add self other =
    MetaUpdateMultiple
      (match self with MetaUpdateMultiple l => l | _ => [self] end ++
       match other with MetaUpdateMultiple l => l | _ => [other] end).
Proof. unfold MetaUpdate_add, MetaUpdateMultiple_init. by destruct self, other. Qed.

(** X21.  [+] on updates is associative: both groupings of three updates
    compose the same updates in the same order. *)
Theorem MetaUpdate_add_assoc (a b c : Update) :
  MetaUpdate_add (MetaUpdate_add a b) c = MetaUpdate_add a (MetaUpdate_add b c).
Proof.
  rewrite !MetaUpdate_add_composed. by rewrite (assoc_L (++)).
Qed.

Lemma updated_composed (update : Update) (reaction : Rxn) (network : ChemNetwork) :
  foldl (λ cur_reaction update, updated update cur_reaction network) reaction
    (match update with MetaUpdateMultiple l => l | _ => [update] end) =
  updated update reaction network.
Proof. by destruct update. Qed.

(** X22.  Calling the sum of two updates always returns a reaction: the one
    the second update gives on what the first update gives, where an update
    that returns [None] gives the reaction it was called on. *)
Theorem MetaUpdate_add_call (a b : Update) (reaction : Rxn) (network : ChemNetwork) :
  MetaUpdate_call (MetaUpdate_add a b) reaction network =
    Some (updated b (updated a reaction network) network).
Proof.
  rewrite MetaUpdate_add_composed. simpl. f_equal.
  change (foldl (λ cur_reaction update, updated update cur_reaction network) reaction
            (match a with MetaUpdateMultiple l => l | _ => [a] end ++
             match b with MetaUpdateMultiple l => l | _ => [b] end) =
          updated b (updated a reaction network) network).
  by rewrite foldl_app, !updated_composed.
Qed.

End Updates.

End StepProps.


(** * Properties of the object libraries *)

Section LibraryProps.
Import Containers.
Context {Identifier : Type} `{Countable Identifier}.
Context {DataUnitGen : Type}.
Context `{!DataUnit Identifier DataUnitGen}.

Abbreviation Basic := (@ObjectLibraryBasic Identifier _ _ DataUnitGen).
Abbreviation Objs := (@Objects DataUnitGen).

Lemma last_with_snoc (u : Identifier) (objs : list DataUnitGen) (x : DataUnitGen) :
  last_with u (objs ++ [x]) = if decide (uid x = u) then Some x else last_with u objs.
Proof.
  unfold last_with. rewrite filter_app, filter_cons, filter_nil.
  case_decide; [by rewrite last_snoc|by rewrite app_nil_r].
Qed.

(** Filing objects one after the other under their uid. *)
Lemma filed_lookup {V} (f : DataUnitGen → V) (objs : list DataUnitGen)
    (m : gmap Identifier V) (u : Identifier) :
  foldl (λ lookup item, <[uid item := f item]> lookup) m objs !! u =
    match last_with u objs with
    | Some x => Some (f x)
    | None => m !! u
    end.
Proof.
  induction objs as [|x objs IH] using rev_ind; [done|].
  rewrite foldl_app, last_with_snoc. simpl. case_decide as Hu.
  - by rewrite <- Hu, lookup_insert_eq.
  - by rewrite lookup_insert_ne.
Qed.

Lemma add_as_fold (self : Basic) (obj : Objs) :
  _lookup (Basic_add self obj) =
    foldl (λ lookup item, <[uid item := item]> lookup) (_lookup self) (objects_of obj).
Proof. by destruct obj. Qed.

(** X23.  After [add] on an [ObjectLibraryBasic], [lib[u]] is the last of
    the added objects whose uid is [u], also when the library already held an
    object under [u]; when no added object has uid [u] it is what it was
    before. *)
Theorem Basic_add_getitem (self : Basic) (obj : Objs) (u : Identifier) :
  Basic_getitem (Basic_add self obj) u =
    match last_with u (objects_of obj) with
    | Some x => Ret x
    | None => Basic_getitem self u
    end.
Proof.
  unfold Basic_getitem. rewrite add_as_fold, (filed_lookup (λ x, x)).
  by destruct (last_with u (objects_of obj)).
Qed.

(** X25.  Adding one object to an [ObjectLibraryBasic] makes the library
    contain it; the length grows by one when no object with that uid was
    held and stays as it was otherwise. *)
Theorem Basic_add_len (self : Basic) (x : DataUnitGen) :
  Basic_contains (Basic_add self (One x)) x = true ∧
  Basic_len (Basic_add self (One x)) =
    if Basic_contains self x then Basic_len self else S (Basic_len self).
Proof.
  unfold Basic_contains, Basic_len. simpl. split.
  - apply bool_decide_eq_true. rewrite dom_insert_L. set_solver.
  - case_bool_decide as Hin.
    + apply elem_of_dom in Hin as [y Hy]. by apply map_size_insert_Some.
    + apply not_elem_of_dom in Hin. by apply map_size_insert_None.
Qed.

(** X26.  In an [ObjectLibraryBasic], [ids] lists each identifier once,
    [len] is the number of identifiers listed, an identifier is listed
    exactly when [lib[u]] returns, and an object is iterated exactly when it
    is returned for some identifier. *)
Theorem Basic_ids_len (self : Basic) :
  NoDup (Basic_ids self) ∧
  length (Basic_ids self) = Basic_len self ∧
  length (Basic_iter self) = Basic_len self ∧
  (∀ u, u ∈ Basic_ids self ↔ ∃ x, Basic_getitem self u = Ret x) ∧
  (∀ x, x ∈ Basic_iter self ↔ ∃ u, Basic_getitem self u = Ret x).
Proof.
  unfold Basic_ids, Basic_iter, Basic_len, Basic_getitem. split_and!.
  - apply NoDup_fst_map_to_list.
  - by rewrite length_fmap, length_map_to_list.
  - by rewrite length_fmap, length_map_to_list.
  - intros u. rewrite list_elem_of_fmap. split.
    + intros ([u' x] & -> & Hin). apply elem_of_map_to_list in Hin.
      exists x. simpl. by rewrite Hin.
    + intros [x Hx]. destruct (_lookup self !! u) as [y|] eqn:Hy; [|done].
      exists (u, y). split; [done|]. by apply elem_of_map_to_list.
  - intros x. rewrite list_elem_of_fmap. split.
    + intros ([u x'] & -> & Hin). apply elem_of_map_to_list in Hin.
      exists u. simpl. by rewrite Hin.
    + intros [u Hx]. destruct (_lookup self !! u) as [y|] eqn:Hy; [|done].
      injection Hx as ->. exists (u, x). split; [done|]. by apply elem_of_map_to_list.
Qed.

(** X27.  In an [ObjectLibraryBasic] made by [__init__] and any number of
    [add] calls, every object is held under its own uid. *)
Theorem Basic_filed_under_uid (objects : option Objs) (adds : list Objs)
    (u : Identifier) (x : DataUnitGen) :
  Basic_getitem (foldl Basic_add (Basic_init objects) adds) u = Ret x → uid x = u.
Proof.
  assert (Hstep : ∀ (lib : Basic) obj,
            (∀ u x, _lookup lib !! u = Some x → uid x = u) →
            ∀ u x, _lookup (Basic_add lib obj) !! u = Some x → uid x = u).
  { intros lib obj Hlib u' x'. rewrite add_as_fold, (filed_lookup (λ x, x)).
    unfold last_with. destruct (last _) as [y|] eqn:Hy; [|by apply Hlib].
    intros [= <-]. apply last_Some_elem_of in Hy.
    by apply list_elem_of_filter in Hy as [Hy _]. }
  assert (Hinit : ∀ u x, _lookup (Basic_init objects) !! u = Some x → uid x = u).
  { assert (Hempty : ∀ u x, _lookup (mkBasic ∅ : Basic) !! u = Some x → uid x = u)
      by (intros u' x'; cbn [_lookup]; by rewrite lookup_empty).
    destruct objects as [obj|]; [|done]. by apply Hstep. }
  assert (Hall : ∀ u x, _lookup (foldl Basic_add (Basic_init objects) adds) !! u = Some x
                        → uid x = u).
  { induction adds as [|obj adds IH] using rev_ind; [done|].
    rewrite foldl_app. simpl. by apply Hstep. }
  unfold Basic_getitem. destruct (_lookup _ !! u) as [y|] eqn:Hy; [|done].
  intros [= <-]. by apply Hall.
Qed.

Section KeyValProps.
Context {Blob : Type} (blob : DataUnitGen → Blob).

Abbreviation KeyVal := (@ObjectLibraryKeyVal Identifier _ _ DataUnitGen Blob).

(** X24.  After [add] on an [ObjectLibraryKeyVal], [lib[u]] is the
    initializer applied to the blob of the last added object whose uid is
    [u]; when no added object has uid [u] it is what it was before. *)
Theorem KeyVal_add_getitem (self : KeyVal) (obj : Objs) (u : Identifier) :
  KeyVal_getitem (KeyVal_add blob self obj) u =
    match last_with u (objects_of obj) with
    | Some x => Ret (_initializer self (blob x))
    | None => KeyVal_getitem self u
    end.
Proof.
  unfold KeyVal_getitem.
  assert (_kv_lookup (KeyVal_add blob self obj) =
          foldl (λ lookup item, <[uid item := blob item]> lookup)
            (_kv_lookup self) (objects_of obj)) as -> by (by destruct obj).
  assert (_initializer (KeyVal_add blob self obj) = _initializer self) as ->
    by (by destruct obj).
  rewrite (filed_lookup blob). by destruct (last_with u (objects_of obj)).
Qed.

End KeyValProps.

End LibraryProps.


(** * The further properties at concrete inputs *)

Section ConcreteExtras.
Import Example.

Lemma identity_maps_agree_witness :
  Network._mol_map (Network.after_all built) !! "m2" = Some 1.
Proof.
  apply (proj2 (proj1 (identity_maps_agree built "m2" 1))).
  exists m2. split; vm_compute; reflexivity.
Defined.

Lemma reaction_map_agrees_witness :
  Network._rxn_list (Network.after_all built) !! 0 =
    Some (Network.mkReaction 0 [0; 1] [2]).
Proof.
  apply (proj1 (reaction_map_agrees built (Network.mkReaction 0 [0; 1] [2]) 0)).
  vm_compute. reflexivity.
Defined.

Lemma insertion_after_raise_witness :
  Network.add_mol m1 (Some ∅) (Network.add_mol m1 None op_only).2 =
    (Ret (length (Network._mol_list op_only)), (Network.add_mol m1 None op_only).2).
Proof.
  apply (proj1 (insertion_after_raise op_only) m1 None (Some ∅)).
  vm_compute. reflexivity.
Defined.

(** O was added after m1, m2 and m3; its row holds, slot by slot, the
    accepted ones among the molecules registered by then. *)
Lemma compat_table_row_witness :
  ∃ n, n ≤ length (Network._mol_list (Network.after_all built)) ∧
       Network.compat_table (Z.of_nat 0) (Network.after_all built) =
         (Ret (Network.row_of O (take n (Network._mol_list (Network.after_all built)))),
          Network.after_all built).
Proof.
  destruct (proj1 (compat_table_row built 0) O) as (n & Hn & Hrow & _).
  - vm_compute. reflexivity.
  - exists n. split; [exact Hn|exact Hrow].
Defined.

Lemma add_mol_meta_kept_witness :
  Network.mol_meta (Z.of_nat (length (Network._mol_list (Network.after_all built))))
      "mass" Network.PyNone with_m4 =
    (match Network.new_meta (Some {["mass" := Network.PyObj 4%Z]}) !! "mass" with
     | Some v => Ret v
     | None => Raise KeyError
     end, with_m4).
Proof.
  apply (add_mol_meta_kept built m4 (Some {["mass" := Network.PyObj 4%Z]}) "mass").
  vm_compute. reflexivity.
Defined.

Lemma add_rxn_meta_in_op_meta_witness :
  Network.op_meta
    (Z.of_nat (length (Network._op_list (Network.after_all built_entities)) + 0))
    "yield" Network.PyNone (Network.after_all built) =
    (match Network.new_meta (Some {["yield" := Network.PyObj 5%Z]}) !! "yield" with
     | Some v => Ret v
     | None => Raise KeyError
     end, Network.after_all built).
Proof.
  apply (add_rxn_meta_in_op_meta built_entities 0 [0; 1] [2]); vm_compute; reflexivity.
Defined.

Lemma add_rxn_empty_side_witness :
  Network.add_rxn 0 [] [2] None empty = (Raise ValueError, empty).
Proof. apply add_rxn_empty_side; [reflexivity|left; reflexivity]. Defined.

Lemma meta_write_then_read_witness :
  Network.mol_meta 0 "mass" Network.PyNone reweighed =
    (Ret (Network.PyObj 7%Z), reweighed).
Proof.
  apply (proj1 (proj1 meta_write_then_read weighed reweighed 0%Z "mass" 7%Z
                  Network.PyNone ltac:(vm_compute; reflexivity))).
Defined.

Lemma single_or_assoc_witness :
  Metadata.single_or (Metadata.single_or frag_a frag_b) frag_c =
    Metadata.single_or frag_a (Metadata.single_or frag_b frag_c).
Proof.
  apply single_or_assoc; [reflexivity|]. intros x y z. simpl. lia.
Defined.

Lemma single_or_comm_witness :
  Metadata.single_or frag_a frag_b = Metadata.single_or frag_b frag_a.
Proof.
  apply single_or_comm; [reflexivity|]. intros x y. simpl. lia.
Defined.

Lemma state_or_assoc_witness :
  Metadata.state_or (Metadata.state_or mass_R1 mass_R2) mass_R1 =
    Metadata.state_or mass_R1 (Metadata.state_or mass_R2 mass_R1).
Proof.
  apply (state_or_assoc (λ _, Z.add) (λ _, Z.add) (λ _, Z.add));
    try (intros k x y z; simpl; lia);
    intros k single Hk; simpl in Hk;
    first [ by rewrite lookup_empty in Hk
          | apply lookup_singleton_Some in Hk as [_ <-]; reflexivity ].
Defined.

Lemma mol_compositor_fragment_witness :
  ∃ single,
    Metadata.mol_info mass_R1 = {["mass" := single]} ∧
    Metadata.resolver single = Z.add ∧
    ∃ mol, mol ∈ Metadata.reactants R1 ++ Metadata.products R1 ∧
           uid (Metadata.item mol) = "m3" ∧ Metadata.call mass mol None = Some 1%Z.
Proof.
  destruct (mol_compositor_fragment (OpDatBase:=Op) mass R1 "m3")
    as (single & Hinfo & Hres & Hsome & _).
  exists single. split; [exact Hinfo|]. split; [exact Hres|].
  apply Hsome. apply (f_equal (λ m, m !! "mass")) in Hinfo.
  rewrite lookup_singleton_eq in Hinfo. vm_compute in Hinfo.
  injection Hinfo as <-. vm_compute. reflexivity.
Defined.

Lemma filters_keep_every_reaction_witness :
  Metadata.execute logreduce (Metadata.RxnAnalysisStepFilter produces_m3)
    ([(R1, true); (R2, true)], None) =
  ((λ rxn, (rxn.1, rxn.2 && Metadata.accepted (Metadata.RxnAnalysisStepFilter produces_m3) rxn.1))
     <$> [(R1, true); (R2, true)], None).
Proof. apply filters_keep_every_reaction. reflexivity. Defined.

Lemma filters_commute_witness :
  Metadata.execute logreduce
    (Metadata.rshift (Metadata.RxnAnalysisStepFilter produces_m3)
       (Metadata.RxnAnalysisStepFilter two_reactants))
    ([(R1, true); (R2, true)], None) =
  Metadata.execute logreduce
    (Metadata.rshift (Metadata.RxnAnalysisStepFilter two_reactants)
       (Metadata.RxnAnalysisStepFilter produces_m3))
    ([(R1, true); (R2, true)], None).
Proof.
  apply (proj1 (filters_commute logreduce
                  (Metadata.RxnAnalysisStepFilter produces_m3)
                  (Metadata.RxnAnalysisStepFilter two_reactants)
                  ([(R1, true); (R2, true)], None) eq_refl eq_refl)).
Defined.

Lemma annotation_yields_nothing_witness :
  ∃ e, Metadata.execute logreduce
         (Metadata.rshift
            (Metadata.RxnAnalysisStepProp (Metadata.MolPropertyCompositor mass))
            (Metadata.RxnAnalysisStepFilter produces_m3))
         ([(R1, true); (R2, true)], None) = ([], Some e).
Proof. apply annotation_yields_nothing. reflexivity. Defined.

Lemma Basic_filed_under_uid_witness : uid m3 = "m3".
Proof.
  apply (Basic_filed_under_uid (Some (Containers.Many [m1; m2])) [Containers.One m3]).
  vm_compute. reflexivity.
Defined.

End ConcreteExtras.
